(** * chicago-lots: the posting pipeline, embedded and checked

    A shallow embedding of the Python sources
      - [src/database/pin_database.py]  (class PINDatabase),
      - [src/image/street_view.py]      (class StreetViewClient),
      - [src/social/bluesky.py]         (class BlueskyClient),
      - [src/__main__.py]               (the driving loop),
    followed by the properties the specification states about them.

    Conventions of the embedding.
    - Python [int] and SQLite INTEGER are [Z]; TEXT and [str] are [string]
      (the UTF-8 bytes); REAL and [float] are [spec_float]; NULL and [None]
      are [None] of an [option].  SQLite's INTEGER has 64 bits; the
      counters of the tables are taken to stay within them, and a limit
      beyond them is refused when it is bound.  A REAL column gives a NaN
      back as NULL and minus zero as [0.0].
    - The [pins] table, whose primary key is the TEXT column [pin], is a
      [gmap string PinRow]; [post_history], which has no uniqueness
      constraint and is only appended to, is a [list HistoryRow].
    - The connection is opened with SQLite's defaults.  No
      [PRAGMA foreign_keys = ON] is issued anywhere in the sources, so the
      FOREIGN KEY clause of [post_history] is not enforced.  Storage faults
      (disk I/O, locking) are not modelled: every statement the methods
      issue then succeeds, and the [except sqlite3.Error] branches, which
      only log and return [False], [[]] or [{}], are never taken.
    - Logger calls change neither control flow nor any state the
      properties mention; they are left out, except in [get_location] whose
      last log record is what reports the address and the attempt count.
    - Of the exceptions that are no [IOError], [sqlite3.Error] or
      [requests.RequestException], and so pass the handlers of the
      methods, these are modelled: the [TypeError] of a subtraction from
      [None], the [OverflowError] of a limit beyond 64 bits, the
      [ValueError] of a negative [time.sleep] and the [ValueError] of
      [open] on a path with a NUL byte.  The body of a response with
      status 200 is taken to be a JSON object. *)

From Stdlib Require Import ZArith Ascii DecimalString.
From Stdlib Require Import Floats.SpecFloat.
From stdpp Require Import base option list sorting strings gmap.

Local Open Scope Z_scope.

(** ** Values shared by the components *)

(** A naive [datetime.datetime] as returned by [datetime.now()]. *)
Record datetime := mk_datetime {
  year : Z; month : Z; day : Z;
  hour : Z; minute : Z; second : Z; microsecond : Z
}.

#[global] Instance datetime_eq_dec : EqDecision datetime.
Proof. solve_decision. Defined.

(** Python exceptions that the modelled code can raise. *)
Inductive exn :=
  | TypeError (msg : string)
  | ValueError (msg : string)
  | OverflowError (msg : string)
  | BlueskyError (msg : string).

(** The outcome of evaluating a Python expression or call. *)
Inductive result (A : Type) :=
  | Return (a : A)
  | Raise (e : exn).
Arguments Return {A} a.
Arguments Raise {A} e.

Definition result_bind {A B} (r : result A) (k : A → result B) : result B :=
  match r with
  | Return a => k a
  | Raise e => Raise e
  end.

(** ** PINDatabase ([src/database/pin_database.py]) *)

Module PINDatabase.

(** One row of [pins], without its key:
    [address TEXT NOT NULL, latitude REAL, longitude REAL,
     posted INTEGER DEFAULT 0, post_date TIMESTAMP,
     error_count INTEGER DEFAULT 0, last_error TEXT]. *)
Record PinRow := mk_pin_row {
  address : string;
  latitude : option spec_float;
  longitude : option spec_float;
  posted : Z;
  post_date : option datetime;
  error_count : Z;
  last_error : option string
}.

(** One row of [post_history]:
    [id INTEGER PRIMARY KEY AUTOINCREMENT, pin TEXT NOT NULL,
     post_date TIMESTAMP NOT NULL, post_id TEXT, image_path TEXT]. *)
Record HistoryRow := mk_history_row {
  h_id : Z;
  h_pin : string;
  h_post_date : datetime;
  h_post_id : string;
  h_image_path : option string
}.

(** The database as seen through the one connection of the process. *)
Record Conn := mk_conn {
  pins : gmap string PinRow;
  post_history : list HistoryRow
}.

(** [PINDatabase(db_path)] on a file that does not exist yet:
    [_create_tables] creates both tables, empty. *)
Definition new_database : Conn :=
  {| pins := ∅; post_history := [] |}.

(** The dictionaries built by [get_next_unposted]. *)
Record Property := mk_property {
  p_pin : string;
  p_address : string;
  p_latitude : option spec_float;
  p_longitude : option spec_float
}.

(** The dictionary built by [get_statistics]; each value is what the
    cursor returned for the column, [None] standing for SQL NULL. *)
Record Statistics := mk_statistics {
  total_pins : option Z;
  posted_count : option Z;
  failed_count : option Z;
  remaining : option Z
}.

(** *** SQL building blocks *)

(** [WHERE posted = 0 AND error_count < 3] *)
Definition unposted_where (r : PinRow) : Prop :=
  posted r = 0 ∧ error_count r < 3.

#[global] Instance unposted_where_dec r : Decision (unposted_where r).
Proof. unfold unposted_where. apply _. Defined.

(** [ORDER BY pin]: TEXT under the BINARY collation, that is bytewise. *)
Definition pin_le (a b : string * PinRow) : Prop := String.le a.1 b.1.

#[global] Instance pin_le_dec : RelDecision pin_le.
Proof. intros a b. unfold pin_le. apply _. Defined.

(** [LIMIT n]: a negative [n] means no limit in SQLite. *)
Definition sql_limit {A} (n : Z) (l : list A) : list A :=
  if decide (n < 0) then l else take (Z.to_nat n) l.

(** [COUNT( * )] *)
Definition sql_count {A} (rows : list A) : option Z :=
  Some (Z.of_nat (length rows)).

(** [SUM(e)]: NULL when there is no row to aggregate. *)
Definition sql_sum (vals : list Z) : option Z :=
  match vals with
  | [] => None
  | _ => Some (foldr Z.add 0 vals)
  end.

(** Python's [a - b] on what a cursor can return for these columns:
    an [int], or [None], on which [-] raises [TypeError]; the message
    names the types of the two operands. *)
Definition py_sub (a b : option Z) : result (option Z) :=
  match a, b with
  | Some x, Some y => Return (Some (x - y))
  | Some _, None =>
      Raise (TypeError
        "unsupported operand type(s) for -: 'int' and 'NoneType'")
  | None, Some _ =>
      Raise (TypeError
        "unsupported operand type(s) for -: 'NoneType' and 'int'")
  | None, None =>
      Raise (TypeError
        "unsupported operand type(s) for -: 'NoneType' and 'NoneType'")
  end.

(** What a REAL column gives back for a bound [float] or [None]: SQLite
    stores a NaN as NULL, and keeps a zero without its sign (minus zero
    comes back as [0.0]); every other value comes back as it was. *)
Definition sqlite_real (x : option spec_float) : option spec_float :=
  match x with
  | Some S754_nan => None
  | Some (S754_zero _) => Some (S754_zero false)
  | _ => x
  end.

(** The Python [int]s that can be bound to a parameter: those of 64
    bits. Binding any other raises [OverflowError], in [execute], before
    the statement runs. *)
Definition sqlite_int (n : Z) : Prop := - 2 ^ 63 ≤ n < 2 ^ 63.

#[global] Instance sqlite_int_dec n : Decision (sqlite_int n).
Proof. unfold sqlite_int. apply _. Defined.

Definition bind_int (n : Z) : result Z :=
  if decide (sqlite_int n) then Return n
  else Raise (OverflowError
                "Python int too large to convert to SQLite INTEGER").

(** *** The methods *)

(** [INSERT OR REPLACE INTO pins (pin, address, latitude, longitude)]:
    a row with the same key is deleted first, and the columns that are not
    listed take their defaults. *)
Definition add_pin (c : Conn) (pin address : string)
    (lat lon : option spec_float) : bool * Conn :=
  let row := {| address := address;
                latitude := sqlite_real lat; longitude := sqlite_real lon;
                posted := 0; post_date := None;
                error_count := 0; last_error := None |} in
  (true, {| pins := <[pin := row]> (pins c);
            post_history := post_history c |}).

Definition unposted_rows (c : Conn) : list (string * PinRow) :=
  merge_sort pin_le
    (filter (λ kr, unposted_where kr.2) (map_to_list (pins c))).

Definition to_property (kr : string * PinRow) : Property :=
  {| p_pin := kr.1; p_address := address kr.2;
     p_latitude := latitude kr.2; p_longitude := longitude kr.2 |}.

(** The SELECT of [get_next_unposted] and the list built from its rows,
    for a limit that has been bound. *)
Definition get_next_unposted (c : Conn) (batch_size : Z) : list Property :=
  to_property <$> sql_limit batch_size (unposted_rows c).

(** The call as a whole: the limit is bound first, and the
    [OverflowError] of a limit beyond 64 bits is not an [sqlite3.Error],
    so it leaves the method. *)
Definition get_next_unposted_call (c : Conn) (batch_size : Z)
    : result (list Property) :=
  result_bind (bind_int batch_size) (λ n, Return (get_next_unposted c n)).

(** [UPDATE pins SET posted = 1, post_date = ? WHERE pin = ?] touches the
    row with that key if there is one; the INSERT into [post_history]
    follows unconditionally, its [id] being one more than the largest
    used so far (rows are never deleted). *)
Definition set_posted (now : datetime) (r : PinRow) : PinRow :=
  {| address := address r; latitude := latitude r; longitude := longitude r;
     posted := 1; post_date := Some now;
     error_count := error_count r; last_error := last_error r |}.

Definition mark_posted (c : Conn) (now : datetime) (pin post_id : string)
    (image_path : option string) : bool * Conn :=
  let entry := {| h_id := Z.of_nat (length (post_history c)) + 1;
                  h_pin := pin; h_post_date := now;
                  h_post_id := post_id; h_image_path := image_path |} in
  (true, {| pins := alter (set_posted now) pin (pins c);
            post_history := post_history c ++ [entry] |}).

(** [UPDATE pins SET error_count = error_count + 1, last_error = ?
     WHERE pin = ?]; the message bound to [?] is a [str], or [None],
    which is stored as NULL. *)
Definition add_error (error_message : option string) (r : PinRow)
    : PinRow :=
  {| address := address r; latitude := latitude r; longitude := longitude r;
     posted := posted r; post_date := post_date r;
     error_count := error_count r + 1; last_error := error_message |}.

Definition record_error (c : Conn) (pin : string)
    (error_message : option string) : bool * Conn :=
  (true, {| pins := alter (add_error error_message) pin (pins c);
            post_history := post_history c |}).

(** The SELECT of [get_statistics] and the dictionary built from its row.
    The entries of a dictionary display are evaluated in order, so the
    subtraction is the last thing evaluated. *)
Definition statistics_row (c : Conn) : option Z * option Z * option Z :=
  let rows := (map_to_list (pins c)).*2 in
  (sql_count rows,
   sql_sum ((λ r, if decide (posted r = 1) then 1 else 0) <$> rows),
   sql_sum ((λ r, if decide (3 ≤ error_count r) then 1 else 0) <$> rows)).

Definition get_statistics (c : Conn) : result Statistics :=
  let '(row0, row1, row2) := statistics_row c in
  result_bind (py_sub row0 row1) (λ d,
  result_bind (py_sub d row2) (λ rem,
  Return {| total_pins := row0; posted_count := row1;
            failed_count := row2; remaining := rem |})).

(** *** Sequences of calls on one connection *)

Inductive store_op :=
  | OpAddPin (pin address : string) (lat lon : option spec_float)
  | OpGetNextUnposted (batch_size : Z)
  | OpMarkPosted (now : datetime) (pin post_id : string)
      (image_path : option string)
  | OpRecordError (pin : string) (error_message : option string)
  | OpGetStatistics.

Definition run_op (c : Conn) (op : store_op) : Conn :=
  match op with
  | OpAddPin pin a lat lon => (add_pin c pin a lat lon).2
  | OpGetNextUnposted _ => c
  | OpMarkPosted now pin post_id image_path =>
      (mark_posted c now pin post_id image_path).2
  | OpRecordError pin msg => (record_error c pin msg).2
  | OpGetStatistics => c
  end.

Definition run_ops (c : Conn) (ops : list store_op) : Conn :=
  foldl run_op c ops.

(** [op] is a call of [add_pin] for [pin]. *)
Definition is_add_pin_of (pin : string) (op : store_op) : Prop :=
  match op with
  | OpAddPin q _ _ _ => q = pin
  | _ => False
  end.

(** [op] is a call of [mark_posted] for [pin]. *)
Definition is_mark_posted_of (pin : string) (op : store_op) : Prop :=
  match op with
  | OpMarkPosted _ q _ _ => q = pin
  | _ => False
  end.

#[global] Instance is_mark_posted_of_dec pin op :
  Decision (is_mark_posted_of pin op).
Proof. destruct op; simpl; apply _. Defined.

(** The number of [post_history] rows of a pin. *)
Definition history_count (c : Conn) (pin : string) : nat :=
  length (filter (λ h, h_pin h = pin) (post_history c)).

(** Strictly ascending order of pins. *)
Definition pin_lt (a b : string) : Prop := String.le a b ∧ a ≠ b.

(** A pin is eligible when its row passes the WHERE clause. *)
Definition eligible_pin (c : Conn) (q : string) : Prop :=
  ∃ r, pins c !! q = Some r ∧ unposted_where r.

(** A row is terminal when it is posted or has failed three times. *)
Definition terminal (r : PinRow) : Prop :=
  posted r = 1 ∨ 3 ≤ error_count r.

End PINDatabase.

(** ** The outside world

    Everything the process does to its surroundings is recorded, in order,
    in a trace of events.  What the surroundings answer is given by
    oracles that see the trace so far, so that a service may answer the
    same question differently from one call to the next.  Sleeping is an
    event like the others: time itself is not modelled. *)

Inductive log_level := DEBUG | INFO | WARNING | ERROR.

(** What [Nominatim.geocode] does on one call. *)
Record Location := mk_location {
  loc_latitude : spec_float;
  loc_longitude : spec_float
}.

Inductive geocode_outcome :=
  | GeoLocation (location : Location)   (* a match *)
  | GeoNone                             (* [None]: no match *)
  | GeoTimedOut                         (* raises [GeocoderTimedOut] *)
  | GeoUnavailable (e : string)         (* raises [GeocoderUnavailable] *)
  | GeoException (e : string).          (* raises any other [Exception] *)

(** The query parameters of the Street View request. *)
Record street_view_params := mk_street_view_params {
  sv_size : string;
  sv_location : spec_float * spec_float;
  sv_key : string;
  sv_return_error_code : bool;
  sv_heading : option Z
}.

(** The record submitted to [createRecord]: ["$type"] is the constant
    ["app.bsky.feed.post"]; the embed, when present, has ["$type"]
    ["app.bsky.embed.images"] and holds one image. *)
Record embed_images := mk_embed_images {
  embed_alt : string;
  embed_image : string
}.

Record feed_post := mk_feed_post {
  post_text : string;
  post_createdAt : string;
  post_embed : option embed_images
}.

Inductive post_payload :=
  | CreateSession (identifier password : string)      (* [json=] *)
  | UploadBlob (data : string)                        (* [data=] *)
  | CreateRecord (repo : option string) (collection : string)
      (record : feed_post).                           (* [json=] *)

Record post_request := mk_post_request {
  req_url : string;
  req_authorization : option string;  (* the session's Authorization header *)
  req_content_type : option string;   (* the per-request [headers=] *)
  req_payload : post_payload
}.

(** An HTTP response: the status, the [content-type] header if any, the
    body as bytes, and what [response.json().get(k)] gives for the four
    keys the clients read ([None] when the key is absent).  The blob
    reference is opaque to the client and stands here as a string; a body
    that is not a JSON object is not modelled. *)
Record response := mk_response {
  status_code : Z;
  content_type : option string;
  content : string;
  json_accessJwt : option string;
  json_did : option string;
  json_blob : option string;
  json_uri : option string
}.

Inductive http_outcome :=
  | HttpResponse (r : response)
  | HttpRequestException (e : string).   (* [requests.RequestException] *)

Inductive event :=
  | EvGeocode (address : string)
  | EvSleep (seconds : Z)
  | EvLog (level : log_level) (message : string)
  | EvGet (url : string) (params : street_view_params)
  | EvPost (request : post_request)
  | EvNow (dt : datetime)       (* [datetime.now()] and what it gave *)
  | EvUtcNow (dt : datetime)    (* [datetime.utcnow()] and what it gave *)
  | EvWrite (path : string)
  | EvRead (path : string).

Record Env := mk_env {
  geocode : list event → string → geocode_outcome;
  http_get : list event → string → street_view_params → http_outcome;
  http_post : list event → post_request → http_outcome;
  now : list event → datetime;        (* [datetime.now()], local time *)
  utcnow : list event → datetime;     (* [datetime.utcnow()] *)
  write_error : list event → string → option string;
    (* [Some e]: writing the file at the path raises [IOError(e)] *)
  write_partial : list event → string → option nat
    (* when it does: [None] if [open] itself failed, so that the path is
       untouched; [Some k] if the failure came after [open], which has
       truncated the file: the first [k] bytes of the data are in it *)
}.

(** The [BlueskyClient] object: its two credentials and the session
    state that [_authenticate] sets. *)
Record BlueskyClient := mk_bluesky_client {
  handle : string;
  app_password : string;
  auth_token : option string;
  did : option string;
  session_authorization : option string
}.

(** The [StreetViewClient] object; nothing in it changes after
    [__init__]. *)
Record StreetViewClient := mk_street_view_client {
  api_key : string;
  image_size : string;
  save_dir : string
}.

(** The state the process acts on. *)
Record World := mk_world {
  trace : list event;
  files : gmap string string;
  db : PINDatabase.Conn;
  bluesky : BlueskyClient
}.

Definition add_events (es : list event) (w : World) : World :=
  {| trace := trace w ++ es; files := files w; db := db w;
     bluesky := bluesky w |}.

Definition add_event (e : event) (w : World) : World := add_events [e] w.

Definition set_files (f : gmap string string) (w : World) : World :=
  {| trace := trace w; files := f; db := db w; bluesky := bluesky w |}.

Definition set_db (c : PINDatabase.Conn) (w : World) : World :=
  {| trace := trace w; files := files w; db := c; bluesky := bluesky w |}.

Definition set_bluesky (b : BlueskyClient) (w : World) : World :=
  {| trace := trace w; files := files w; db := db w; bluesky := b |}.

(** What a trace says about geocoding attempts and pauses. *)
Definition geocode_calls (tr : list event) : list string :=
  omap (λ e, match e with EvGeocode a => Some a | _ => None end) tr.

Definition sleeps (tr : list event) : list Z :=
  omap (λ e, match e with EvSleep s => Some s | _ => None end) tr.

(** Computations: a state monad over [World] with Python exceptions. *)
Definition M (A : Type) : Type := World → result A * World.

#[global] Instance M_ret : MRet M := λ A a w, (Return a, w).

#[global] Instance M_bind : MBind M := λ A B k m w,
  match m w with
  | (Return a, w') => k a w'
  | (Raise e, w') => (Raise e, w')
  end.

Definition raise {A} (e : exn) : M A := λ w, (Raise e, w).

(** [try: body  except Exception as e: handler(e)] *)
Definition try_except {A} (body : M A) (handler : exn → M A) : M A := λ w,
  match body w with
  | (Return a, w') => (Return a, w')
  | (Raise e, w') => handler e w'
  end.

Definition emit (e : event) : M unit := λ w, (Return (), add_event e w).

Definition get_world : M World := λ w, (Return w, w).

Definition modify (f : World → World) : M unit := λ w, (Return (), f w).

(** [time.sleep]: a negative length is refused with [ValueError]. *)
Definition time_sleep (seconds : Z) : M unit :=
  if decide (seconds < 0) then
    raise (ValueError "sleep length must be non-negative")
  else emit (EvSleep seconds).

(** The logger and the two clocks. *)

Definition logger (level : log_level) (message : string) : M unit :=
  emit (EvLog level message).

Definition datetime_now (env : Env) : M datetime :=
  λ w, let dt := now env (trace w) in (Return dt, add_event (EvNow dt) w).

Definition datetime_utcnow (env : Env) : M datetime :=
  λ w, let dt := utcnow env (trace w) in
       (Return dt, add_event (EvUtcNow dt) w).

(** Python's [str(int)]. *)
Definition str_of_Z (z : Z) : string := NilZero.string_of_int (Z.to_int z).

(** The truth value of an optional [str]: [None] and [''] are false. *)
Definition truthy (o : option string) : bool :=
  match o with
  | Some (String _ _) => true
  | _ => false
  end.

(** Whether a path holds a NUL byte: [open] refuses such a path with
    [ValueError], which is not an [IOError], before it asks the file
    system. *)
Fixpoint has_nul (s : string) : bool :=
  match s with
  | EmptyString => false
  | String c s' => Ascii.eqb c "000"%char || has_nul s'
  end.

(** [sub in s] on strings. *)
Fixpoint str_contains (sub s : string) : bool :=
  String.prefix sub s ||
  match s with
  | EmptyString => false
  | String _ s' => str_contains sub s'
  end.

(** [range(n)] *)
Definition py_range (n : Z) : list Z := seqZ 0 n.

(** [%0<width>d] for a non-negative integer. *)
Fixpoint zeros (k : nat) : string :=
  match k with
  | O => EmptyString
  | S k' => String "0"%char (zeros k')
  end.

Definition zero_pad (width : nat) (n : Z) : string :=
  let s := str_of_Z n in
  zeros (width - String.length s)%nat +:+ s.

(** [dt.strftime('%Y%m%d_%H%M%S')].  Years are rendered on four digits;
    below 1000 the C library decides the padding, and no running clock
    returns such a year. *)
Definition strftime_Ymd_HMS (dt : datetime) : string :=
  zero_pad 4 (year dt) +:+ zero_pad 2 (month dt) +:+ zero_pad 2 (day dt)
  +:+ "_" +:+
  zero_pad 2 (hour dt) +:+ zero_pad 2 (minute dt) +:+ zero_pad 2 (second dt).

(** [dt.isoformat()]: the fraction is printed only when it is not zero. *)
Definition isoformat (dt : datetime) : string :=
  zero_pad 4 (year dt) +:+ "-" +:+ zero_pad 2 (month dt) +:+ "-" +:+
  zero_pad 2 (day dt) +:+ "T" +:+
  zero_pad 2 (hour dt) +:+ ":" +:+ zero_pad 2 (minute dt) +:+ ":" +:+
  zero_pad 2 (second dt) +:+
  (if decide (microsecond dt = 0) then EmptyString
   else "." +:+ zero_pad 6 (microsecond dt)).

(** [os.path.join(a, b)] of [posixpath]. *)
Definition str_startswith (s pre : string) : bool := String.prefix pre s.

Definition str_endswith_sep (s : string) : bool :=
  match String.rev s with
  | String "/"%char _ => true
  | _ => false
  end.

Definition os_path_join (a b : string) : string :=
  if str_startswith b "/" then b
  else if bool_decide (a = EmptyString) || str_endswith_sep a then a +:+ b
  else a +:+ "/" +:+ b.

(** ** StreetViewClient ([src/image/street_view.py]) *)

Module StreetViewClient.

(** The path [process_location] saves to: [filename] is
    [f"{pin}_{timestamp}.jpg"], joined to the save directory. *)
Definition image_path_of (self : StreetViewClient) (pin : string)
    (dt : datetime) : string :=
  let timestamp := strftime_Ymd_HMS dt in
  let filename := pin +:+ "_" +:+ timestamp +:+ ".jpg" in
  os_path_join (save_dir self) filename.

(** The dictionary built by [process_location]; [latitude] and
    [longitude] are keys that exist only after a success. *)
Record ProcessResult := mk_process_result {
  r_pin : string;
  r_address : string;
  r_status : string;
  r_image_path : option string;
  r_error : option string;
  r_latitude : option spec_float;
  r_longitude : option spec_float
}.

Section methods.
Context (env : Env).

Definition geolocator_geocode (address : string) : M geocode_outcome :=
  λ w, (Return (geocode env (trace w) address),
        add_event (EvGeocode address) w).

Definition requests_get (url : string) (params : street_view_params)
    : M http_outcome :=
  λ w, (Return (http_get env (trace w) url params),
        add_event (EvGet url params) w).

(** [with open(path, 'wb') as f: f.write(data)]; the answer is the
    [IOError] raised, if any. The [ValueError] of a path with a NUL byte
    is raised before anything is touched; an [IOError] raised after
    [open] leaves the file truncated. *)
Definition write_file (path data : string) : M (option string) := λ w,
  if has_nul path then (Raise (ValueError "embedded null byte"), w)
  else
    match write_error env (trace w) path with
    | Some e =>
        match write_partial env (trace w) path with
        | None => (Return (Some e), add_event (EvWrite path) w)
        | Some k =>
            (Return (Some e),
             set_files (<[path := String.substring 0 k data]> (files w))
               (add_event (EvWrite path) w))
        end
    | None =>
        (Return None,
         set_files (<[path := data]> (files w))
           (add_event (EvWrite path) w))
    end.

(** The two statements after the [for] loop of [get_location]. *)
Definition get_location_failed (address : string) (retries : Z)
    : M (option Location) :=
  logger ERROR ("Failed to geocode address after " +:+ str_of_Z retries
                +:+ " attempts: " +:+ address);;
  mret None.

(** The [for attempt in range(retries)] loop, on the attempts left. *)
Fixpoint get_location_loop (address : string) (retries : Z)
    (attempts : list Z) : M (option Location) :=
  match attempts with
  | [] => get_location_failed address retries
  | attempt :: rest =>
      o ← geolocator_geocode address;
      match o with
      | GeoLocation location =>
          logger DEBUG ("Successfully geocoded address: " +:+ address);;
          mret (Some location)
      | GeoNone =>
          time_sleep 1;;
          get_location_loop address retries rest
      | GeoTimedOut =>
          logger WARNING ("Geocoding timed out for " +:+ address
                          +:+ ", attempt " +:+ str_of_Z (attempt + 1)
                          +:+ "/" +:+ str_of_Z retries);;
          time_sleep (2 ^ attempt);;
          get_location_loop address retries rest
      | GeoUnavailable e =>
          logger ERROR ("Geocoding service unavailable: " +:+ e);;
          get_location_failed address retries
      | GeoException e =>
          logger ERROR ("Unexpected error during geocoding: " +:+ e);;
          get_location_failed address retries
      end
  end.

Definition get_location (address : string) (retries : Z)
    : M (option Location) :=
  get_location_loop address retries (py_range retries).

Definition base_url : string :=
  "https://maps.googleapis.com/maps/api/streetview".

Definition get_street_view_image (self : StreetViewClient)
    (lat lon : spec_float) (heading : option Z) : M (option string) :=
  let params := {| sv_size := image_size self; sv_location := (lat, lon);
                   sv_key := api_key self; sv_return_error_code := true;
                   sv_heading := heading |} in
  r ← requests_get base_url params;
  match r with
  | HttpResponse resp =>
      if decide (status_code resp = 200) then
        if str_contains "image" (default EmptyString (content_type resp))
        then mret (Some (content resp))
        else mret None
      else mret None
  | HttpRequestException _ => mret None
  end.

Definition process_location (self : StreetViewClient)
    (pin address : string) : M ProcessResult :=
  location ← get_location address 3;
  match location with
  | None =>
      mret {| r_pin := pin; r_address := address; r_status := "error";
              r_image_path := None; r_error := Some "Geocoding failed";
              r_latitude := None; r_longitude := None |}
  | Some location =>
      image_data ← get_street_view_image self (loc_latitude location)
                     (loc_longitude location) None;
      if truthy image_data then
        let image_data := default EmptyString image_data in
        dt ← datetime_now env;
        let image_path := image_path_of self pin dt in
        err ← write_file image_path image_data;
        match err with
        | None =>
            mret {| r_pin := pin; r_address := address;
                    r_status := "success";
                    r_image_path := Some image_path; r_error := None;
                    r_latitude := Some (loc_latitude location);
                    r_longitude := Some (loc_longitude location) |}
        | Some e =>
            mret {| r_pin := pin; r_address := address;
                    r_status := "error"; r_image_path := None;
                    r_error := Some ("Failed to save image: " +:+ e);
                    r_latitude := None; r_longitude := None |}
        end
      else
        mret {| r_pin := pin; r_address := address; r_status := "error";
                r_image_path := None;
                r_error := Some "No Street View image available";
                r_latitude := None; r_longitude := None |}
  end.


End methods.
End StreetViewClient.

(** ** BlueskyClient ([src/social/bluesky.py]) *)

Module BlueskyClient.
Section methods.
Context (env : Env).

Definition api_base : string := "https://bsky.social/xrpc".

(** [self.session.post(url, ...)]: the session adds its Authorization
    header, if it has one, to every request. *)
Definition session_post (url : string) (content_type : option string)
    (payload : post_payload) : M http_outcome := λ w,
  let request := {| req_url := url;
                    req_authorization := session_authorization (bluesky w);
                    req_content_type := content_type;
                    req_payload := payload |} in
  (Return (http_post env (trace w) request), add_event (EvPost request) w).

(** [with open(path, 'rb') as f: f.read()]; [None] stands for the
    [IOError] of a file that cannot be read. [files] holds the files
    that can be read; no file name holds a NUL byte, so a path with one
    is not among them, and [open] refuses it with [ValueError] before it
    asks the file system. *)
Definition read_file (path : string) : M (option string) := λ w,
  match files w !! path with
  | Some data => (Return (Some data), add_event (EvRead path) w)
  | None =>
      if has_nul path then (Raise (ValueError "embedded null byte"), w)
      else (Return None, add_event (EvRead path) w)
  end.

(** The assignments of [_authenticate] after a 200 response;
    [f'Bearer {None}'] is ['Bearer None']. *)
Definition logged_in (self : BlueskyClient) (resp : response)
    : BlueskyClient :=
  {| handle := handle self; app_password := app_password self;
     auth_token := json_accessJwt resp;
     did := json_did resp;
     session_authorization :=
       Some ("Bearer " +:+ default "None" (json_accessJwt resp)) |}.

Definition _authenticate : M bool :=
  w ← get_world;
  let self := bluesky w in
  r ← session_post (api_base +:+ "/com.atproto.server.createSession") None
        (CreateSession (handle self) (app_password self));
  match r with
  | HttpResponse resp =>
      if decide (status_code resp = 200) then
        modify (set_bluesky (logged_in self resp));;
        mret true
      else mret false
  | HttpRequestException _ => mret false
  end.

Definition _upload_image (image_path : string) : M (option string) :=
  image_data ← read_file image_path;
  match image_data with
  | None => mret None
  | Some image_data =>
      r ← session_post (api_base +:+ "/com.atproto.repo.uploadBlob")
            (Some "image/jpeg") (UploadBlob image_data);
      match r with
      | HttpResponse resp =>
          if decide (status_code resp = 200) then mret (json_blob resp)
          else mret None
      | HttpRequestException _ => mret None
      end
  end.

(** The [embed] entry of the record, from what [_upload_image] gave. *)
Definition embed_of (blob : option string) : option embed_images :=
  if truthy blob then
    Some {| embed_alt := "Street View image of property";
            embed_image := default EmptyString blob |}
  else None.

(** The part of [post] that follows the optional upload: the
    [createRecord] request and the reading of its answer. *)
Definition create_record (text createdAt : string)
    (embed : option embed_images) : M (option string) :=
  w ← get_world;
  r ← session_post (api_base +:+ "/com.atproto.repo.createRecord") None
        (CreateRecord (did (bluesky w)) "app.bsky.feed.post"
           {| post_text := text; post_createdAt := createdAt;
              post_embed := embed |});
  match r with
  | HttpResponse resp =>
      if decide (status_code resp = 200) then mret (json_uri resp)
      else mret None
  | HttpRequestException _ => mret None
  end.

Definition post (text : string) (image_path : option string)
    : M (option string) :=
  w ← get_world;
  authenticated ←
    (if truthy (auth_token (bluesky w)) then mret true else _authenticate);
  if negb authenticated then raise (BlueskyError "Authentication failed")
  else
    dt ← datetime_utcnow env;
    let createdAt := isoformat dt +:+ "Z" in
    embed ←
      (if truthy image_path then
         blob ← _upload_image (default EmptyString image_path);
         mret (embed_of blob)
       else mret None);
    create_record text createdAt embed.

Definition format_post (pin address : string) : string :=
  address +:+ String "010"%char ("PIN: " +:+ pin).

End methods.
End BlueskyClient.

(** ** The driving loop ([src/__main__.py]) *)

Module Main.

(** The two configuration values the loop reads:
    [config['database']['batch_size']] and
    [config['social']['post_interval']]. *)
Record Config := mk_config {
  batch_size : Z;
  post_interval : Z
}.

(** How the body of the [try] statement of one record was left:
    by [continue], or by reaching its end. *)
Inductive flow := Continue | FallThrough.

(** [str(e)] *)
Definition str_of_exn (e : exn) : string :=
  match e with
  | TypeError msg => msg
  | ValueError msg => msg
  | OverflowError msg => msg
  | BlueskyError msg => msg
  end.

Section loop.
Context (env : Env) (config : Config) (street_view : StreetViewClient).

Definition db_get_statistics : M PINDatabase.Statistics := λ w,
  (PINDatabase.get_statistics (db w), w).

Definition db_get_next_unposted (n : Z) : M (list PINDatabase.Property) :=
  λ w, (PINDatabase.get_next_unposted_call (db w) n, w).

Definition db_record_error (pin : string) (msg : option string) : M bool :=
  w ← get_world;
  let '(b, c) := PINDatabase.record_error (db w) pin msg in
  modify (set_db c);;
  mret b.

(** [mark_posted] reads the clock itself. *)
Definition db_mark_posted (pin post_id : string)
    (image_path : option string) : M bool :=
  dt ← datetime_now env;
  w ← get_world;
  let '(b, c) := PINDatabase.mark_posted (db w) dt pin post_id image_path in
  modify (set_db c);;
  mret b.

(** The body of the inner [try]. *)
Definition process_property_try (prop : PINDatabase.Property) : M flow :=
  let pin := PINDatabase.p_pin prop in
  let address := PINDatabase.p_address prop in
  image_result ← StreetViewClient.process_location env street_view
                   pin address;
  if bool_decide (StreetViewClient.r_status image_result = "error") then
    db_record_error pin (StreetViewClient.r_error image_result);;
    mret Continue
  else
    let post_text := BlueskyClient.format_post pin address in
    post_uri ← BlueskyClient.post env post_text
                 (StreetViewClient.r_image_path image_result);
    if truthy post_uri then
      db_mark_posted pin (default EmptyString post_uri)
        (StreetViewClient.r_image_path image_result);;
      mret FallThrough
    else
      db_record_error pin (Some "Failed to create Bluesky post");;
      mret FallThrough.

(** One pass of the body of [for prop in properties]. *)
Definition process_property (prop : PINDatabase.Property) : M unit :=
  f ← try_except (process_property_try prop)
        (λ e, db_record_error (PINDatabase.p_pin prop)
                (Some (str_of_exn e));;
              mret FallThrough);
  match f with
  | Continue => mret ()
  | FallThrough => time_sleep (post_interval config)
  end.

Fixpoint process_properties (properties : list PINDatabase.Property)
    : M unit :=
  match properties with
  | [] => mret ()
  | prop :: rest => process_property prop;; process_properties rest
  end.

(** One pass of the body of [while True]; [KeyboardInterrupt] is not
    modelled. *)
Definition main_iteration : M unit :=
  try_except
    (stats ← db_get_statistics;
     properties ← db_get_next_unposted (batch_size config);
     match properties with
     | [] => time_sleep (post_interval config)
     | _ => process_properties properties
     end)
    (λ e, time_sleep 60).

Fixpoint main_loop (iterations : nat) : M unit :=
  match iterations with
  | O => mret ()
  | S n => main_iteration;; main_loop n
  end.

End loop.
End Main.

(** ** Vocabulary of the properties *)

(** The [createRecord] request of a post without image. *)
Definition text_only_request (self : BlueskyClient) (text : string)
    (dt : datetime) : post_request :=
  {| req_url := BlueskyClient.api_base +:+ "/com.atproto.repo.createRecord";
     req_authorization := session_authorization self;
     req_content_type := None;
     req_payload :=
       CreateRecord (did self) "app.bsky.feed.post"
         {| post_text := text; post_createdAt := isoformat dt +:+ "Z";
            post_embed := None |} |}.

(** A clock reading as the calendar allows it, with a year of four
    digits. *)
Definition valid_datetime (dt : datetime) : Prop :=
  1000 ≤ year dt ≤ 9999 ∧ 1 ≤ month dt ≤ 12 ∧ 1 ≤ day dt ≤ 31
  ∧ 0 ≤ hour dt ≤ 23 ∧ 0 ≤ minute dt ≤ 59 ∧ 0 ≤ second dt ≤ 59.

(** A clock reading cut to whole seconds. *)
Definition to_the_second (dt : datetime) : Z * Z * Z * Z * Z * Z :=
  (year dt, month dt, day dt, hour dt, minute dt, second dt).

(** Reading a string of decimal digits back, most significant first. *)
Definition digit_value (c : ascii) : Z := Z.of_N (N_of_ascii c) - 48.

Fixpoint parse_digits (acc : Z) (s : string) : Z :=
  match s with
  | EmptyString => acc
  | String c s' => parse_digits (10 * acc + digit_value c) s'
  end.

(** ** Concrete scenarios *)

Module Scenario.
Import PINDatabase.

Definition morning : datetime := mk_datetime 2024 5 17 9 30 0 0.
Definition evening : datetime := mk_datetime 2024 5 17 21 45 10 0.

(** Three imported properties, none processed yet. *)
Definition store_abc : Conn :=
  run_ops new_database
    [OpAddPin "B" "2 W Oak St" None None;
     OpAddPin "A" "1 W Oak St" None None;
     OpAddPin "C" "3 W Oak St" None None].

(** One imported property, posted once. *)
Definition store_posted : Conn :=
  run_ops new_database
    [OpAddPin "A" "1 W Oak St" None None;
     OpMarkPosted morning "A" "at://post/1" (Some "images/A.jpg")].

Definition client_logged_out : BlueskyClient :=
  {| handle := "lots.bsky.social"; app_password := "app-password";
     auth_token := None; did := None; session_authorization := None |}.

Definition street_view : StreetViewClient :=
  {| api_key := "maps-key"; image_size := "600x400"; save_dir := "images" |}.

Definition world_of (c : Conn) : World :=
  {| trace := []; files := ∅; db := c; bluesky := client_logged_out |}.

Definition client_logged_in : BlueskyClient :=
  {| handle := "lots.bsky.social"; app_password := "app-password";
     auth_token := Some "jwt-1"; did := Some "did:plc:lots";
     session_authorization := Some "Bearer jwt-1" |}.

Definition empty_response (status : Z) : response :=
  {| status_code := status; content_type := None; content := EmptyString;
     json_accessJwt := None; json_did := None; json_blob := None;
     json_uri := None |}.

Definition created_response (uri : string) : response :=
  {| status_code := 200; content_type := Some "application/json";
     content := EmptyString;
     json_accessJwt := None; json_did := None; json_blob := None;
     json_uri := Some uri |}.

(** Surroundings built from one answer of the geocoder, one answer of
    the imagery service and the answers of the social platform. *)
Definition env_with (geo : geocode_outcome) (imagery : http_outcome)
    (platform : post_payload → http_outcome) : Env :=
  {| geocode := λ _ _, geo;
     http_get := λ _ _ _, imagery;
     http_post := λ _ request, platform (req_payload request);
     now := λ _, morning;
     utcnow := λ _, morning;
     write_error := λ _ _, None;
     write_partial := λ _ _, None |}.

Definition chicago : Location :=
  {| loc_latitude := S754_finite false 41 0;
     loc_longitude := S754_finite true 87 0 |}.

Definition photo : http_outcome :=
  HttpResponse
    {| status_code := 200; content_type := Some "image/jpeg";
       content := "JPEG-bytes";
       json_accessJwt := None; json_did := None; json_blob := None;
       json_uri := None |}.

Definition session_response : response :=
  {| status_code := 200; content_type := Some "application/json";
     content := EmptyString;
     json_accessJwt := Some "jwt-1"; json_did := Some "did:plc:lots";
     json_blob := None; json_uri := None |}.

Definition blob_response : response :=
  {| status_code := 200; content_type := Some "application/json";
     content := EmptyString;
     json_accessJwt := None; json_did := None;
     json_blob := Some "blob-ref-1"; json_uri := None |}.

(** The platform as it should be. *)
Definition platform_up (payload : post_payload) : http_outcome :=
  match payload with
  | CreateSession _ _ => HttpResponse session_response
  | UploadBlob _ => HttpResponse blob_response
  | CreateRecord _ _ _ =>
      HttpResponse (created_response "at://did:plc:lots/post/1")
  end.

(** The platform refusing every blob upload with status 500. *)
Definition platform_no_upload (payload : post_payload) : http_outcome :=
  match payload with
  | UploadBlob _ => HttpResponse (empty_response 500)
  | _ => platform_up payload
  end.

(** The platform refusing every record with status 500. *)
Definition platform_no_record (payload : post_payload) : http_outcome :=
  match payload with
  | CreateRecord _ _ _ => HttpResponse (empty_response 500)
  | _ => platform_up payload
  end.

(** The platform refusing the credentials with status 401. *)
Definition platform_no_session (payload : post_payload) : http_outcome :=
  match payload with
  | CreateSession _ _ => HttpResponse (empty_response 401)
  | _ => platform_up payload
  end.

Definition env_upload_refused : Env :=
  env_with GeoNone (HttpRequestException "connection refused")
    platform_no_upload.

Definition world_logged_in : World :=
  {| trace := []; files := {[ "images/A.jpg" := "JPEG-bytes" ]};
     db := store_abc; bluesky := client_logged_in |}.

(** The geocoder times out on every call. *)
Definition env_timeouts : Env :=
  env_with GeoTimedOut (HttpRequestException "connection refused")
    platform_up.

(** The geocoding service is unavailable; everything else works. *)
Definition env_geocoder_down : Env :=
  env_with (GeoUnavailable "service down") photo platform_up.

(** Everything works. *)
Definition env_all_up : Env := env_with (GeoLocation chicago) photo platform_up.

(** Images are found, but the platform refuses the record. *)
Definition env_record_refused : Env :=
  env_with (GeoLocation chicago) photo platform_no_record.

(** Images are found, but the platform refuses the credentials. *)
Definition env_session_refused : Env :=
  env_with (GeoLocation chicago) photo platform_no_session.

(** Everything works, and the clock advances by one microsecond with
    every event; the imagery service serves a new photograph once the
    first acquisition is over. *)
Definition env_fast_clock : Env :=
  {| geocode := λ _ _, GeoLocation chicago;
     http_get := λ h _ _,
       HttpResponse
         {| status_code := 200; content_type := Some "image/jpeg";
            content := if decide (length h < 5)%nat then "first photo"
                       else "second photo";
            json_accessJwt := None; json_did := None; json_blob := None;
            json_uri := None |};
     http_post := λ _ request, platform_up (req_payload request);
     now := λ h, mk_datetime 2024 5 17 9 30 0 (Z.of_nat (length h));
     utcnow := λ h, mk_datetime 2024 5 17 14 30 0 (Z.of_nat (length h));
     write_error := λ _ _, None;
     write_partial := λ _ _, None |}.

(** Two acquisitions for pin ["A"], one after the other, when
    everything works, and what each of them returns. *)
Definition first_acquisition : result StreetViewClient.ProcessResult * World :=
  StreetViewClient.process_location env_all_up street_view "A" "1 W Oak St"
    (world_of store_abc).

Definition second_acquisition : result StreetViewClient.ProcessResult * World :=
  StreetViewClient.process_location env_all_up street_view "A" "1 W Oak St"
    first_acquisition.2.

Definition acquired_A : StreetViewClient.ProcessResult :=
  StreetViewClient.mk_process_result "A" "1 W Oak St" "success"
    (Some "images/A_20240517_093000.jpg") None
    (Some (S754_finite false 41 0)) (Some (S754_finite true 87 0)).

(** The same two acquisitions under the advancing clock. *)
Definition first_fast : result StreetViewClient.ProcessResult * World :=
  StreetViewClient.process_location env_fast_clock street_view "A"
    "1 W Oak St" (world_of store_abc).

Definition second_fast : result StreetViewClient.ProcessResult * World :=
  StreetViewClient.process_location env_fast_clock street_view "A"
    "1 W Oak St" first_fast.2.

Definition config : Main.Config :=
  {| Main.batch_size := 2; Main.post_interval := 300 |}.

End Scenario.

(** ** Further vocabulary: stores and their invariants *)

Module Store.
Import PINDatabase.

(** A row as the methods leave it: [posted] is 0 or 1 and goes with
    [post_date], and the error counter is not negative. *)
Definition row_ok (r : PinRow) : Prop :=
  (posted r = 0 ∧ post_date r = None
   ∨ posted r = 1 ∧ is_Some (post_date r))
  ∧ 0 ≤ error_count r.

(** A store as the methods leave it: every row is as above, a posted
    pin has at least one history entry, and the history ids count up
    from 1. *)
Definition store_ok (c : Conn) : Prop :=
  (∀ p r, pins c !! p = Some r →
     row_ok r ∧ (posted r = 1 → (1 ≤ history_count c p)%nat))
  ∧ h_id <$> post_history c = seqZ 1 (Z.of_nat (length (post_history c))).

(** Rows that are both posted and permanently failed. *)
Definition posted_and_failed (r : PinRow) : Prop :=
  posted r = 1 ∧ 3 ≤ error_count r.

#[global] Instance posted_and_failed_dec r : Decision (posted_and_failed r).
Proof. unfold posted_and_failed. apply _. Defined.

(** One imported record: pin, address, latitude, longitude. *)
Definition import_row : Type :=
  string * string * option spec_float * option spec_float.

Definition import_pin (x : import_row) : string := x.1.1.1.

Definition import_op (x : import_row) : store_op :=
  OpAddPin x.1.1.1 x.1.1.2 x.1.2 x.2.

(** A coordinate as it is read back after an import: a NaN comes back
    as [None], minus zero as [0.0], anything else as it was. *)
Definition read_back (x : option spec_float) : option spec_float :=
  match x with
  | Some S754_nan => None
  | Some (S754_zero true) => Some (S754_zero false)
  | _ => x
  end.

Definition import_property (x : import_row) : Property :=
  {| p_pin := x.1.1.1; p_address := x.1.1.2;
     p_latitude := read_back x.1.2; p_longitude := read_back x.2 |}.

(** The limit lets every row through. *)
Definition unlimited (n : Z) (c : Conn) : Prop :=
  n < 0 ∨ Z.of_nat (size (pins c)) ≤ n.

(** A row after further [record_error] calls with the given messages. *)
Definition after_errors (r : PinRow) (msgs : list (option string))
    : PinRow :=
  {| address := address r; latitude := latitude r; longitude := longitude r;
     posted := posted r; post_date := post_date r;
     error_count := error_count r + Z.of_nat (length msgs);
     last_error := default (last_error r) (last msgs) |}.

(** The pin a call writes to, if it writes at all. *)
Definition op_pin (op : store_op) : option string :=
  match op with
  | OpAddPin q _ _ _ => Some q
  | OpMarkPosted _ q _ _ => Some q
  | OpRecordError q _ => Some q
  | OpGetNextUnposted _ => None
  | OpGetStatistics => None
  end.

End Store.

(** ** Further vocabulary: what a trace holds *)

Definition imagery_requests (tr : list event) : list street_view_params :=
  omap (λ e, match e with EvGet _ params => Some params | _ => None end) tr.

Definition post_requests (tr : list event) : list post_request :=
  omap (λ e, match e with EvPost r => Some r | _ => None end) tr.

Definition written_paths (tr : list event) : list string :=
  omap (λ e, match e with EvWrite p => Some p | _ => None end) tr.

Definition read_paths (tr : list event) : list string :=
  omap (λ e, match e with EvRead p => Some p | _ => None end) tr.

(** The seconds spent in [time.sleep]. *)
Definition total_sleep (tr : list event) : Z := foldr Z.add 0 (sleeps tr).

Definition is_create_session (r : post_request) : Prop :=
  match req_payload r with CreateSession _ _ => True | _ => False end.

Definition is_upload_blob (r : post_request) : Prop :=
  match req_payload r with UploadBlob _ => True | _ => False end.

Definition is_create_record (r : post_request) : Prop :=
  match req_payload r with CreateRecord _ _ _ => True | _ => False end.

(** A [createRecord] request names [repo] as its repository; any other
    request passes. *)
Definition record_repo_is (repo : option string) (r : post_request) : Prop :=
  match req_payload r with
  | CreateRecord repo' _ _ => repo' = repo
  | _ => True
  end.

#[global] Instance is_create_session_dec r : Decision (is_create_session r).
Proof. unfold is_create_session. destruct (req_payload r); apply _. Defined.

#[global] Instance is_upload_blob_dec r : Decision (is_upload_blob r).
Proof. unfold is_upload_blob. destruct (req_payload r); apply _. Defined.

#[global] Instance is_create_record_dec r : Decision (is_create_record r).
Proof. unfold is_create_record. destruct (req_payload r); apply _. Defined.

(** The events [get_location] can add. *)
Definition location_event (address : string) (e : event) : Prop :=
  match e with
  | EvGeocode a => a = address
  | EvSleep _ | EvLog _ _ => True
  | _ => False
  end.

(** A line of text: no line feed in it. *)
Fixpoint single_line (s : string) : Prop :=
  match s with
  | EmptyString => True
  | String c s' => c ≠ "010"%char ∧ single_line s'
  end.

(** ** Further vocabulary: the requests of the Bluesky client *)

(** The [createSession] request. *)
Definition session_request (self : BlueskyClient) : post_request :=
  {| req_url := BlueskyClient.api_base +:+ "/com.atproto.server.createSession";
     req_authorization := session_authorization self;
     req_content_type := None;
     req_payload := CreateSession (handle self) (app_password self) |}.

(** The [uploadBlob] request. *)
Definition upload_request (self : BlueskyClient) (data : string)
    : post_request :=
  {| req_url := BlueskyClient.api_base +:+ "/com.atproto.repo.uploadBlob";
     req_authorization := session_authorization self;
     req_content_type := Some "image/jpeg";
     req_payload := UploadBlob data |}.

(** The [createRecord] request. *)
Definition record_request (self : BlueskyClient) (text : string)
    (dt : datetime) (embed : option embed_images) : post_request :=
  {| req_url := BlueskyClient.api_base +:+ "/com.atproto.repo.createRecord";
     req_authorization := session_authorization self;
     req_content_type := None;
     req_payload :=
       CreateRecord (did self) "app.bsky.feed.post"
         {| post_text := text; post_createdAt := isoformat dt +:+ "Z";
            post_embed := embed |} |}.

(** What [post] makes of the answer to [createRecord]. *)
Definition uri_of (o : http_outcome) : option string :=
  match o with
  | HttpResponse resp =>
      if decide (status_code resp = 200) then json_uri resp else None
  | HttpRequestException _ => None
  end.

(** What [_upload_image] makes of the answer to [uploadBlob]. *)
Definition blob_of (o : http_outcome) : option string :=
  match o with
  | HttpResponse resp =>
      if decide (status_code resp = 200) then json_blob resp else None
  | HttpRequestException _ => None
  end.

(** An answer other than a response with status 200. *)
Definition refused (o : http_outcome) : Prop :=
  match o with
  | HttpResponse resp => status_code resp ≠ 200
  | HttpRequestException _ => True
  end.

(** The image path is one that [open] refuses with [ValueError]: it is
    given, it has a NUL byte, and it is not among the readable files. *)
Definition refused_path (w : World) (image_path : option string) : bool :=
  truthy image_path
  && has_nul (default EmptyString image_path)
  && bool_decide (files w !! default EmptyString image_path = None).

(** The statements of [post] that follow the authentication check. *)
Definition post_body (env : Env) (text : string)
    (image_path : option string) : M (option string) :=
  dt ← datetime_utcnow env;
  let createdAt := isoformat dt +:+ "Z" in
  embed ←
    (if truthy image_path then
       blob ← BlueskyClient._upload_image env
                (default EmptyString image_path);
       mret (BlueskyClient.embed_of blob)
     else mret None);
  BlueskyClient.create_record env text createdAt embed.

(** ** Further vocabulary: what the loop writes to the store *)

(** The calls the loop makes on the store for the property [pin]:
    [mark_posted] with a non-empty post URI and the path of the image,
    or [record_error] with a message. *)
Definition outcome_op (pin : string) (op : PINDatabase.store_op) : Prop :=
  match op with
  | PINDatabase.OpMarkPosted _ q uri (Some _) => q = pin ∧ uri ≠ EmptyString
  | PINDatabase.OpRecordError q (Some _) => q = pin
  | _ => False
  end.

(** * Properties *)

(** ** PINDatabase *)

Module PINDatabaseFacts.
Import PINDatabase.

#[local] Instance pin_le_trans : Transitive pin_le.
Proof. intros a b d. unfold pin_le. apply transitivity. Qed.

#[local] Instance pin_le_total : Total pin_le.
Proof. intros a b. unfold pin_le. apply (total String.le). Qed.

Lemma unposted_rows_perm c :
  unposted_rows c ≡ₚ
    filter (λ kr, unposted_where kr.2) (map_to_list (pins c)).
Proof. apply merge_sort_Permutation. Qed.

Lemma elem_of_unposted_rows c q r :
  (q, r) ∈ unposted_rows c ↔ pins c !! q = Some r ∧ unposted_where r.
Proof.
  rewrite unposted_rows_perm, list_elem_of_filter, elem_of_map_to_list.
  simpl. tauto.
Qed.

Lemma unposted_rows_NoDup c : NoDup (unposted_rows c).*1.
Proof.
  rewrite unposted_rows_perm.
  eapply sublist_NoDup; [apply (NoDup_fst_map_to_list (pins c))|].
  apply fmap_sublist, sublist_filter.
Qed.

Lemma unposted_rows_sorted c : StronglySorted String.le (unposted_rows c).*1.
Proof.
  apply (StronglySorted_fmap fst pin_le String.le).
  - intros a b H. exact H.
  - apply StronglySorted_merge_sort; apply _.
Qed.

Lemma sorted_NoDup_strict (l : list string) :
  StronglySorted String.le l → NoDup l → StronglySorted pin_lt l.
Proof.
  induction 1 as [|x l Hl IH Hx]; intros Hnd; [constructor|].
  apply NoDup_cons in Hnd as [Hnotin Hnd].
  constructor; [auto|].
  rewrite Forall_forall in Hx |- *. intros y Hy. split; [auto|].
  intros ->. contradiction.
Qed.

Lemma sql_limit_nonneg {A} (n : Z) (l : list A) :
  0 ≤ n → sql_limit n l = take (Z.to_nat n) l.
Proof. intros Hn. unfold sql_limit. case_decide; [lia|done]. Qed.

Lemma sql_limit_sublist {A} (n : Z) (l : list A) : sql_limit n l `sublist_of` l.
Proof. unfold sql_limit. case_decide; [done|apply sublist_take]. Qed.

Lemma get_next_unposted_pins c n :
  p_pin <$> get_next_unposted c n = (sql_limit n (unposted_rows c)).*1.
Proof.
  unfold get_next_unposted. rewrite <- list_fmap_compose.
  apply list_fmap_ext. intros _ [q r] _. reflexivity.
Qed.

(** What is returned passes the WHERE clause, whatever the limit. *)
Lemma get_next_unposted_elem c n p :
  p ∈ get_next_unposted c n →
  ∃ r, pins c !! p_pin p = Some r ∧ unposted_where r
       ∧ p = to_property (p_pin p, r).
Proof.
  unfold get_next_unposted. intros ([q r] & -> & Hin)%list_elem_of_fmap.
  exists r. simpl. split_and!; [| |done].
  all: eapply elem_of_sublist in Hin; [|apply sql_limit_sublist].
  all: apply elem_of_unposted_rows in Hin; tauto.
Qed.

Lemma get_next_unposted_pin_elem c n q :
  q ∈ p_pin <$> get_next_unposted c n → eligible_pin c q.
Proof.
  intros (p & -> & Hin)%list_elem_of_fmap.
  destruct (get_next_unposted_elem _ _ _ Hin) as (r & ? & ? & _).
  by exists r.
Qed.

Lemma get_next_unposted_sorted c n :
  StronglySorted pin_lt (p_pin <$> get_next_unposted c n).
Proof.
  rewrite get_next_unposted_pins.
  pose proof (sorted_NoDup_strict _ (unposted_rows_sorted c)
                (unposted_rows_NoDup c)) as Hs.
  unfold sql_limit. case_decide; [done|].
  rewrite fmap_take.
  rewrite <- (take_drop (Z.to_nat n) (unposted_rows c).*1) in Hs.
  by apply StronglySorted_app_1_l in Hs.
Qed.

(** An eligible pin that is left out comes after everything returned,
    and is left out only because the limit was reached. *)
Lemma get_next_unposted_left_out c n q :
  0 ≤ n → eligible_pin c q → q ∉ p_pin <$> get_next_unposted c n →
  Z.of_nat (length (get_next_unposted c n)) = n
  ∧ ∀ p, p ∈ p_pin <$> get_next_unposted c n → pin_lt p q.
Proof.
  intros Hn (r & Hq & Hr) Hout.
  assert (Hlen : length (get_next_unposted c n)
                 = length (p_pin <$> get_next_unposted c n))
    by (by rewrite length_fmap).
  rewrite Hlen. clear Hlen.
  rewrite get_next_unposted_pins in *. rewrite sql_limit_nonneg in * by done.
  rewrite fmap_take in *.
  assert (Hin : q ∈ (unposted_rows c).*1).
  { apply list_elem_of_fmap. exists (q, r). split; [done|].
    by apply elem_of_unposted_rows. }
  pose proof (sorted_NoDup_strict _ (unposted_rows_sorted c)
                (unposted_rows_NoDup c)) as Hs.
  set (l := (unposted_rows c).*1) in *.
  rewrite <- (take_drop (Z.to_nat n) l) in Hin, Hs.
  apply elem_of_app in Hin as [Hin|Hin]; [contradiction|].
  split.
  - destruct (decide (Z.to_nat n ≤ length l)%nat) as [Hle|Hgt].
    + rewrite length_take. lia.
    + rewrite drop_ge in Hin by lia. by apply elem_of_nil in Hin.
  - intros p Hp. eapply StronglySorted_app_1_elem_of; eauto.
Qed.

(** A strictly ascending list is determined by its elements. *)
Lemma pin_lt_sorted_unique (l1 l2 : list string) :
  StronglySorted pin_lt l1 → StronglySorted pin_lt l2 →
  (∀ q, q ∈ l1 ↔ q ∈ l2) → l1 = l2.
Proof.
  intros H1 H2 Heq.
  assert (Hnd : ∀ l, StronglySorted pin_lt l → NoDup l).
  { induction 1 as [|x l _ IH Hx]; constructor; [|done].
    intros Hin. rewrite Forall_forall in Hx. by destruct (Hx _ Hin). }
  assert (Hle : ∀ l, StronglySorted pin_lt l → StronglySorted String.le l).
  { induction 1 as [|x l _ IH Hx]; constructor; [done|].
    eapply Forall_impl; [exact Hx|]. by intros y []. }
  apply (StronglySorted_unique String.le); auto.
  apply NoDup_Permutation; auto.
Qed.

Lemma get_next_unposted_call_int c n :
  sqlite_int n → get_next_unposted_call c n = Return (get_next_unposted c n).
Proof.
  intros Hn. unfold get_next_unposted_call, bind_int.
  by rewrite decide_True.
Qed.

(** C3, as amended. For every store and every limit [n] from 0 up to
    the largest 64-bit integer, [get_next_unposted] returns at most [n]
    records; each is a row of the store with [posted = 0] and
    [error_count < 3], with the address and coordinates of that row;
    they come in strictly ascending order of pin; a row with
    [posted = 0] and [error_count < 3] is left out only when [n]
    records were returned, all of them with a smaller pin, so the
    result is the [n] smallest such pins; and when the pins of such
    rows are [A < B < C], a limit of 2 gives exactly [[A; B]]. *)
Theorem get_next_unposted_n_smallest (c : Conn) (n : Z) :
  0 ≤ n < 2 ^ 63 →
  ∃ l,
    get_next_unposted_call c n = Return l
    ∧ Z.of_nat (length l) ≤ n
    ∧ (∀ p, p ∈ l →
         ∃ r, pins c !! p_pin p = Some r
              ∧ posted r = 0 ∧ error_count r < 3
              ∧ p_address p = address r
              ∧ p_latitude p = latitude r ∧ p_longitude p = longitude r)
    ∧ StronglySorted pin_lt (p_pin <$> l)
    ∧ (∀ q r, pins c !! q = Some r → posted r = 0 → error_count r < 3 →
         q ∉ p_pin <$> l →
         Z.of_nat (length l) = n
         ∧ ∀ p, p ∈ p_pin <$> l → pin_lt p q)
    ∧ (∀ A B C, n = 2 → pin_lt A B → pin_lt B C →
         (∀ q, (∃ r, pins c !! q = Some r
                     ∧ posted r = 0 ∧ error_count r < 3)
               ↔ q ∈ [A; B; C]) →
         p_pin <$> l = [A; B]).
Proof.
  intros [Hn Hmax]. exists (get_next_unposted c n). split_and!.
  - apply get_next_unposted_call_int. unfold sqlite_int. lia.
  - unfold get_next_unposted. rewrite length_fmap, sql_limit_nonneg by done.
    rewrite length_take. lia.
  - intros p Hp. destruct (get_next_unposted_elem _ _ _ Hp)
      as (r & ? & Hw & ->). destruct Hw. exists r. by split_and!.
  - apply get_next_unposted_sorted.
  - intros q r Hr Hposted Herrors.
    apply get_next_unposted_left_out; [done|]. by exists r.
  - intros A B C -> HAB HBC Hel.
    assert (Hall : (unposted_rows c).*1 = [A; B; C]).
    { apply pin_lt_sorted_unique.
      - apply sorted_NoDup_strict;
          [apply unposted_rows_sorted|apply unposted_rows_NoDup].
      - assert (HAC : pin_lt A C).
        { destruct HAB as [HAB1 HAB2], HBC as [HBC1 HBC2]. split.
          - by etrans.
          - intros ->. apply HAB2. by apply (anti_symm String.le). }
        rewrite !StronglySorted_cons, !Forall_cons, !Forall_nil.
        split_and!; auto using SSorted_nil.
      - intros q. rewrite <- Hel.
        rewrite list_elem_of_fmap. split.
        + intros ([q' r] & -> & Hin). exists r.
          by apply elem_of_unposted_rows.
        + intros (r & Hr). exists (q, r). split; [done|].
          by apply elem_of_unposted_rows. }
    rewrite get_next_unposted_pins, sql_limit_nonneg by done.
    rewrite fmap_take, Hall. reflexivity.
Qed.

(** The rows of the example store that are neither posted nor failed. *)
Lemma store_abc_pending (q : string) :
  (∃ r, pins Scenario.store_abc !! q = Some r
        ∧ posted r = 0 ∧ error_count r < 3)
  ↔ q ∈ ["A"; "B"; "C"].
Proof.
  unfold Scenario.store_abc, run_ops.
  cbn [foldl run_op add_pin snd pins new_database].
  rewrite !elem_of_cons, elem_of_nil. split.
  - intros (r & Hr & _).
    apply lookup_insert_Some in Hr as [[<- _]|[_ Hr]]; [tauto|].
    apply lookup_insert_Some in Hr as [[<- _]|[_ Hr]]; [tauto|].
    apply lookup_insert_Some in Hr as [[<- _]|[_ Hr]]; [tauto|].
    by rewrite lookup_empty in Hr.
  - intros [->|[->|[->|[]]]]; eexists;
      (split; [by simplify_map_eq|cbn; lia]).
Qed.

Lemma get_next_unposted_n_smallest_witness :
  ∃ l,
    get_next_unposted_call Scenario.store_abc 2 = Return l
    ∧ Z.of_nat (length l) ≤ 2
    ∧ StronglySorted pin_lt (p_pin <$> l)
    ∧ p_pin <$> l = ["A"; "B"].
Proof.
  destruct (get_next_unposted_n_smallest Scenario.store_abc 2)
    as (l & Hcall & Hlen & _ & Hsorted & _ & Habc); [lia|].
  exists l. split_and!; [exact Hcall|exact Hlen|exact Hsorted|].
  apply (Habc "A" "B" "C").
  - reflexivity.
  - split; [by vm_compute|discriminate].
  - split; [by vm_compute|discriminate].
  - exact store_abc_pending.
Defined.

(** The ordering example of the specification, evaluated: pins imported
    in the order B, A, C come back as A, B. *)
Example get_next_unposted_abc :
  p_pin <$> get_next_unposted Scenario.store_abc 2 = ["A"; "B"].
Proof. by vm_compute. Qed.

(** C3, counterexample. A limit below zero is no limit for SQLite:
    with a limit of -1 the call returns all three pending records, which
    is more than the limit, and not "at most [n]". *)
Lemma get_next_unposted_negative_limit :
  get_next_unposted_call Scenario.store_abc (-1)
  = Return (get_next_unposted Scenario.store_abc (-1))
  ∧ p_pin <$> get_next_unposted Scenario.store_abc (-1) = ["A"; "B"; "C"]
  ∧ ¬ Z.of_nat (length (get_next_unposted Scenario.store_abc (-1))) ≤ -1.
Proof. split_and!; [by vm_compute..|]. vm_compute. by intros H. Qed.

(** A limit beyond 64 bits cannot be bound: the call raises
    [OverflowError] and returns nothing. *)
Example get_next_unposted_limit_overflow :
  get_next_unposted_call Scenario.store_abc (2 ^ 63)
  = Raise (OverflowError
             "Python int too large to convert to SQLite INTEGER").
Proof. by vm_compute. Qed.

(** *** Terminal states under sequences of calls *)

Lemma run_op_keeps_row c op p r :
  pins c !! p = Some r → ¬ is_add_pin_of p op →
  ∃ r', pins (run_op c op) !! p = Some r'
        ∧ (posted r = 1 → posted r' = 1)
        ∧ error_count r ≤ error_count r'.
Proof.
  intros Hr Hop. destruct op as [q a lat lon| |t q u i|q m|]; simpl in *.
  - exists r. rewrite lookup_insert_ne by done. auto with lia.
  - exists r. auto with lia.
  - rewrite lookup_alter. case_decide; subst.
    + rewrite Hr. eexists. split; [done|]. simpl. auto with lia.
    + exists r. auto with lia.
  - rewrite lookup_alter. case_decide; subst.
    + rewrite Hr. eexists. split; [done|]. simpl. auto with lia.
    + exists r. auto with lia.
  - exists r. auto with lia.
Qed.

Lemma run_ops_keeps_row c ops p r :
  pins c !! p = Some r → Forall (λ op, ¬ is_add_pin_of p op) ops →
  ∃ r', pins (run_ops c ops) !! p = Some r'
        ∧ (posted r = 1 → posted r' = 1)
        ∧ error_count r ≤ error_count r'.
Proof.
  intros Hr Hops. revert c r Hr.
  induction Hops as [|op ops Hop _ IH]; intros c r Hr; simpl.
  - exists r. auto with lia.
  - destruct (run_op_keeps_row c op p r Hr Hop) as (r1 & Hr1 & Hp1 & He1).
    destruct (IH _ _ Hr1) as (r2 & Hr2 & Hp2 & He2).
    exists r2. split_and!; [done|auto|lia].
Qed.

Lemma terminal_not_returned c p r n :
  pins c !! p = Some r → terminal r → p ∉ p_pin <$> get_next_unposted c n.
Proof.
  intros Hr Ht (r' & Hr' & Hp & He)%get_next_unposted_pin_elem.
  rewrite Hr in Hr'. injection Hr' as <-. destruct Ht; lia.
Qed.

(** C2, as amended. Once a record has [posted = 1] or [error_count >= 3],
    no sequence of store calls that does not call [add_pin] again for
    that same pin makes [get_next_unposted] return it: the row stays,
    [posted] stays 1 and [error_count] does not decrease. *)
Theorem terminal_is_one_way (c : Conn) (p : string) (r : PinRow)
    (ops : list store_op) :
  pins c !! p = Some r → terminal r →
  Forall (λ op, ¬ is_add_pin_of p op) ops →
  ∃ r', pins (run_ops c ops) !! p = Some r'
        ∧ (posted r = 1 → posted r' = 1)
        ∧ error_count r ≤ error_count r'
        ∧ terminal r'
        ∧ ∀ n, p ∉ p_pin <$> get_next_unposted (run_ops c ops) n.
Proof.
  intros Hr Ht Hops.
  destruct (run_ops_keeps_row c ops p r Hr Hops) as (r' & Hr' & Hp & He).
  assert (Ht' : terminal r') by (destruct Ht; [left; auto|right; lia]).
  exists r'. split_and!; try done.
  intros n. by eapply terminal_not_returned.
Qed.

Lemma terminal_is_one_way_witness :
  pins Scenario.store_posted !! "A"
    = Some (mk_pin_row "1 W Oak St" None None 1 (Some Scenario.morning)
              0 None)
  ∧ ∃ r', pins (run_ops Scenario.store_posted
                  [OpRecordError "A" (Some "late failure");
                   OpAddPin "B" "2 W Oak St" None None;
                   OpGetNextUnposted 5]) !! "A" = Some r'
          ∧ posted r' = 1.
Proof.
  split; [by vm_compute|].
  destruct (terminal_is_one_way Scenario.store_posted "A"
              (mk_pin_row "1 W Oak St" None None 1 (Some Scenario.morning)
                 0 None)
              [OpRecordError "A" (Some "late failure");
               OpAddPin "B" "2 W Oak St" None None;
               OpGetNextUnposted 5])
    as (r' & Hr' & Hp & _).
  - by vm_compute.
  - by left.
  - repeat constructor; simpl; auto; discriminate.
  - exists r'. split; [exact Hr'|]. by apply Hp.
Defined.

(** C2, counterexample. Monotonicity is stated for every sequence of
    store operations, and [add_pin] is one of them: importing the pin of
    a posted record again puts it back among the records that
    [get_next_unposted] returns. *)
Lemma readded_pin_is_returned_again :
  (∃ r, pins Scenario.store_posted !! "A" = Some r ∧ posted r = 1)
  ∧ p_pin <$> get_next_unposted Scenario.store_posted 1 = []
  ∧ p_pin <$> get_next_unposted
                (run_ops Scenario.store_posted
                   [OpAddPin "A" "1 W Oak St" None None]) 1 = ["A"].
Proof.
  split_and!.
  - eexists. split; by vm_compute.
  - by vm_compute.
  - by vm_compute.
Qed.

(** *** [mark_posted] and the history table *)

Lemma history_count_run_op c op pin :
  history_count (run_op c op) pin
  = (history_count c pin
     + if decide (is_mark_posted_of pin op) then 1 else 0)%nat.
Proof.
  unfold history_count.
  destruct op as [q a lat lon| |t q u i|q m|]; simpl;
    try (rewrite Nat.add_0_r; reflexivity).
  rewrite filter_app, length_app, filter_cons, filter_nil. simpl.
  by repeat case_decide.
Qed.

Lemma history_count_run_ops c ops pin :
  history_count (run_ops c ops) pin
  = (history_count c pin + length (filter (is_mark_posted_of pin) ops))%nat.
Proof.
  revert c. induction ops as [|op ops IH]; intros c; simpl.
  - by rewrite Nat.add_0_r.
  - unfold run_ops in IH. rewrite IH, history_count_run_op, filter_cons.
    case_decide; simpl; lia.
Qed.

(** C1, as amended. For a pin that is in the store, [mark_posted] does
    not look at the history: whether or not the pin already has an
    entry, the call returns [True], sets [posted = 1] and [post_date],
    and appends one more entry, so the number of history rows of the pin
    grows by one with every call. *)
Theorem mark_posted_always_appends (c : Conn) (t : datetime)
    (pin post_id : string) (image_path : option string) (r : PinRow) :
  pins c !! pin = Some r →
  (mark_posted c t pin post_id image_path).1 = true
  ∧ pins (mark_posted c t pin post_id image_path).2 !! pin
    = Some (set_posted t r)
  ∧ post_history (mark_posted c t pin post_id image_path).2
    = post_history c
      ++ [mk_history_row (Z.of_nat (length (post_history c)) + 1) pin t
            post_id image_path]
  ∧ history_count (mark_posted c t pin post_id image_path).2 pin
    = S (history_count c pin).
Proof.
  intros Hr. split_and!; try reflexivity.
  - simpl. rewrite lookup_alter, decide_True by done. by rewrite Hr.
  - pose proof (history_count_run_op c (OpMarkPosted t pin post_id image_path)
                  pin) as H.
    etrans; [exact H|]. rewrite decide_True by done. lia.
Qed.

Lemma mark_posted_always_appends_witness :
  pins Scenario.store_posted !! "A"
    = Some (mk_pin_row "1 W Oak St" None None 1 (Some Scenario.morning)
              0 None)
  ∧ history_count
      (mark_posted Scenario.store_posted Scenario.evening "A" "at://post/2"
         (Some "images/A2.jpg")).2 "A"
    = S (history_count Scenario.store_posted "A").
Proof.
  split; [by vm_compute|].
  apply (mark_posted_always_appends Scenario.store_posted Scenario.evening
           "A" "at://post/2" (Some "images/A2.jpg")
           (mk_pin_row "1 W Oak St" None None 1 (Some Scenario.morning)
              0 None)).
  by vm_compute.
Defined.

(** C1, counterexample. On a store where pin ["A"] is posted and has its
    history entry, a second [mark_posted] for ["A"] returns [True] and
    leaves two entries for ["A"]. *)
Lemma second_mark_posted_succeeds :
  posted <$> pins Scenario.store_posted !! "A" = Some 1
  ∧ history_count Scenario.store_posted "A" = 1%nat
  ∧ (mark_posted Scenario.store_posted Scenario.evening "A" "at://post/2"
       (Some "images/A2.jpg")).1 = true
  ∧ history_count
      (mark_posted Scenario.store_posted Scenario.evening "A" "at://post/2"
         (Some "images/A2.jpg")).2 "A" = 2%nat.
Proof. split_and!; by vm_compute. Qed.

(** With SQLite's default of not enforcing foreign keys, the INSERT of
    [mark_posted] goes through for a pin that [pins] does not hold. *)
Example mark_posted_unknown_pin :
  pins new_database !! "Z" = None
  ∧ (mark_posted new_database Scenario.morning "Z" "at://post/3" None).1
    = true
  ∧ history_count
      (mark_posted new_database Scenario.morning "Z" "at://post/3" None).2
      "Z" = 1%nat
  ∧ pins (mark_posted new_database Scenario.morning "Z" "at://post/3"
            None).2 !! "Z" = None.
Proof. split_and!; by vm_compute. Qed.

(** *** [add_pin] *)

Lemma unposted_rows_length c :
  (length (unposted_rows c) ≤ size (pins c))%nat.
Proof.
  rewrite unposted_rows_perm, <- length_map_to_list.
  apply length_filter.
Qed.

(** C9. For a pin that is already in the store, [add_pin] replaces the
    whole row: it now holds the new address and coordinates (as a REAL
    column keeps them) with [posted = 0], [post_date] NULL,
    [error_count = 0] and [last_error] NULL, whatever the old row was,
    so the pin is eligible and [get_next_unposted] returns it again;
    other rows and the history are untouched. *)
Theorem add_pin_resets_row (c : Conn) (pin : string) (r : PinRow)
    (address : string) (lat lon : option spec_float) :
  pins c !! pin = Some r →
  (add_pin c pin address lat lon).1 = true
  ∧ pins (add_pin c pin address lat lon).2 !! pin
    = Some (mk_pin_row address (sqlite_real lat) (sqlite_real lon)
              0 None 0 None)
  ∧ eligible_pin (add_pin c pin address lat lon).2 pin
  ∧ pin ∈ p_pin <$> get_next_unposted (add_pin c pin address lat lon).2
                      (Z.of_nat (size (pins (add_pin c pin address lat lon).2)))
  ∧ (∀ q, q ≠ pin →
       pins (add_pin c pin address lat lon).2 !! q = pins c !! q)
  ∧ post_history (add_pin c pin address lat lon).2 = post_history c.
Proof.
  intros _.
  assert (Hrow : pins (add_pin c pin address lat lon).2 !! pin
                 = Some (mk_pin_row address (sqlite_real lat) (sqlite_real lon)
              0 None 0 None))
    by (simpl; apply lookup_insert_eq).
  assert (Hel : eligible_pin (add_pin c pin address lat lon).2 pin).
  { eexists. split; [exact Hrow|]. split; simpl; lia. }
  split_and!; try done.
  - set (c' := (add_pin c pin address lat lon).2) in *.
    rewrite get_next_unposted_pins, sql_limit_nonneg by lia.
    rewrite Nat2Z.id, take_ge by apply unposted_rows_length.
    destruct Hel as (r' & Hr' & Hw).
    apply list_elem_of_fmap. exists (pin, r'). split; [done|].
    by apply elem_of_unposted_rows.
  - intros q Hq. simpl. by rewrite lookup_insert_ne.
Qed.

Lemma add_pin_resets_row_witness :
  pins Scenario.store_posted !! "A"
    = Some (mk_pin_row "1 W Oak St" None None 1 (Some Scenario.morning)
              0 None)
  ∧ pins (add_pin Scenario.store_posted "A" "1 West Oak Street" None
            None).2 !! "A"
    = Some (mk_pin_row "1 West Oak Street" None None 0 None 0 None).
Proof.
  split; [by vm_compute|].
  apply (add_pin_resets_row Scenario.store_posted "A"
           (mk_pin_row "1 W Oak St" None None 1 (Some Scenario.morning)
              0 None)).
  by vm_compute.
Defined.

(** *** [get_statistics] *)

Lemma sum_indicator {A} (P : A → Prop) `{!∀ x, Decision (P x)} (l : list A) :
  foldr Z.add 0 ((λ x, if decide (P x) then 1 else 0) <$> l)
  = Z.of_nat (length (filter P l)).
Proof.
  induction l as [|x l IH]; [done|].
  rewrite fmap_cons, filter_cons. cbn [foldr]. rewrite IH.
  destruct (decide (P x)); simpl; lia.
Qed.

Lemma sql_sum_indicator {A} (P : A → Prop) `{!∀ x, Decision (P x)}
    (l : list A) :
  l ≠ [] →
  sql_sum ((λ x, if decide (P x) then 1 else 0) <$> l)
  = Some (Z.of_nat (length (filter P l))).
Proof.
  intros Hl. rewrite <- sum_indicator. by destruct l.
Qed.

(** On a store with at least one pin the dictionary is returned, and
    its entries are the counts the specification names. *)
Lemma get_statistics_nonempty c :
  pins c ≠ ∅ →
  let rows := (map_to_list (pins c)).*2 in
  let total := Z.of_nat (size (pins c)) in
  let n_posted := Z.of_nat (length (filter (λ r, posted r = 1) rows)) in
  let n_failed :=
    Z.of_nat (length (filter (λ r, 3 ≤ error_count r) rows)) in
  get_statistics c
  = Return (mk_statistics (Some total) (Some n_posted) (Some n_failed)
              (Some (total - n_posted - n_failed))).
Proof.
  intros Hne. simpl. unfold get_statistics, statistics_row.
  assert (Hrows : (map_to_list (pins c)).*2 ≠ []).
  { rewrite <- map_to_list_empty_iff in Hne.
    by destruct (map_to_list (pins c)). }
  rewrite !sql_sum_indicator by done.
  unfold sql_count. rewrite length_fmap, length_map_to_list.
  reflexivity.
Qed.

(** C10. On a store with no pin, the two SUM columns are NULL, the
    subtraction raises [TypeError], and [get_statistics] returns no
    dictionary: the exception leaves the method. *)
Theorem get_statistics_empty_raises (c : Conn) :
  pins c = ∅ →
  statistics_row c = (Some 0, None, None)
  ∧ get_statistics c
    = Raise (TypeError
               "unsupported operand type(s) for -: 'int' and 'NoneType'").
Proof.
  intros Hc. unfold get_statistics, statistics_row.
  rewrite Hc, map_to_list_empty. split; reflexivity.
Qed.

Lemma get_statistics_empty_raises_witness :
  get_statistics new_database
  = Raise (TypeError
             "unsupported operand type(s) for -: 'int' and 'NoneType'").
Proof.
  apply (get_statistics_empty_raises new_database). reflexivity.
Defined.

(** C7, at the failing input. Starting from a new database, calls of
    [mark_posted] and [record_error] leave [pins] empty, and
    [get_statistics] then raises instead of returning
    [remaining = 0 - 0 - 0]. *)
Theorem get_statistics_raises_after_calls :
  pins (run_ops new_database
          [OpMarkPosted Scenario.morning "P1" "at://post/1" None;
           OpRecordError "P1" (Some "Geocoding failed")]) = ∅
  ∧ get_statistics
      (run_ops new_database
         [OpMarkPosted Scenario.morning "P1" "at://post/1" None;
          OpRecordError "P1" (Some "Geocoding failed")])
    = Raise (TypeError
               "unsupported operand type(s) for -: 'int' and 'NoneType'").
Proof. split; by vm_compute. Qed.

End PINDatabaseFacts.

(** ** Traces *)

Lemma add_events_add_events (a b : list event) (w : World) :
  add_events b (add_events a w) = add_events (a ++ b) w.
Proof. unfold add_events. simpl. by rewrite app_assoc. Qed.

Lemma add_events_nil (w : World) : add_events [] w = w.
Proof. destruct w. unfold add_events. simpl. by rewrite app_nil_r. Qed.

Lemma time_sleep_nonneg (s : Z) : 0 ≤ s → time_sleep s = emit (EvSleep s).
Proof. intros Hs. unfold time_sleep. by rewrite decide_False by lia. Qed.

Lemma time_sleep_pow (a : Z) : time_sleep (2 ^ a) = emit (EvSleep (2 ^ a)).
Proof. apply time_sleep_nonneg, Z.pow_nonneg. lia. Qed.

Lemma time_sleep_negative (s : Z) (w : World) :
  s < 0 →
  time_sleep s w = (Raise (ValueError "sleep length must be non-negative"), w).
Proof. intros Hs. unfold time_sleep. by rewrite decide_True by lia. Qed.

(** ** StreetViewClient *)

Module StreetViewClientFacts.
Import StreetViewClient.

Lemma get_location_failed_eq address retries w :
  get_location_failed address retries w
  = (Return None,
     add_events [EvLog ERROR ("Failed to geocode address after "
                              +:+ str_of_Z retries +:+ " attempts: "
                              +:+ address)] w).
Proof. reflexivity. Qed.

(** One pass of the loop when the geocoder times out. *)
Lemma get_location_loop_timed_out env address retries attempt rest w :
  geocode env (trace w) address = GeoTimedOut →
  get_location_loop env address retries (attempt :: rest) w
  = get_location_loop env address retries rest
      (add_events [EvGeocode address;
                   EvLog WARNING ("Geocoding timed out for " +:+ address
                                  +:+ ", attempt " +:+ str_of_Z (attempt + 1)
                                  +:+ "/" +:+ str_of_Z retries);
                   EvSleep (2 ^ attempt)] w).
Proof.
  intros H. cbn [get_location_loop].
  unfold mbind, M_bind, geolocator_geocode at 1. rewrite H.
  rewrite time_sleep_pow. unfold logger, emit, add_event.
  rewrite !add_events_add_events. reflexivity.
Qed.

(** Against a geocoder that always times out, every attempt of the loop
    is made, each followed by its pause, and the call returns [None]. *)
Lemma get_location_loop_all_timeouts env address retries attempts w :
  (∀ h a, geocode env h a = GeoTimedOut) →
  ∃ tr, get_location_loop env address retries attempts w
        = (Return None, add_events tr w)
        ∧ geocode_calls tr = replicate (length attempts) address
        ∧ sleeps tr = (λ attempt, 2 ^ attempt) <$> attempts.
Proof.
  intros H. revert w. induction attempts as [|attempt rest IH]; intros w.
  - eexists. split; [apply get_location_failed_eq|]. done.
  - rewrite get_location_loop_timed_out by apply H.
    destruct (IH (add_events
                    [EvGeocode address;
                     EvLog WARNING ("Geocoding timed out for " +:+ address
                                    +:+ ", attempt "
                                    +:+ str_of_Z (attempt + 1)
                                    +:+ "/" +:+ str_of_Z retries);
                     EvSleep (2 ^ attempt)] w))
      as (tr & -> & Hg & Hs).
    eexists. split; [by rewrite add_events_add_events|].
    unfold geocode_calls, sleeps in *.
    split; [rewrite omap_app, Hg|rewrite omap_app, Hs]; reflexivity.
Qed.

(** For any number of attempts allowed: as many geocoding calls, the
    pause after attempt [i] being [2 ^ i] seconds, and [None]. *)
Lemma get_location_all_timeouts env address retries w :
  (∀ h a, geocode env h a = GeoTimedOut) →
  ∃ tr, get_location env address retries w = (Return None, add_events tr w)
        ∧ length (geocode_calls tr) = Z.to_nat retries
        ∧ sleeps tr = (λ attempt, 2 ^ attempt) <$> py_range retries.
Proof.
  intros H. unfold get_location.
  destruct (get_location_loop_all_timeouts env address retries
              (py_range retries) w H) as (tr & Heq & Hg & Hs).
  exists tr. split_and!; [done| |done].
  rewrite Hg, length_replicate. apply length_seqZ.
Qed.

(** C4. With three attempts allowed and a geocoder that times out on
    every call, [get_location] geocodes the address exactly three times,
    pauses 1, 2 and 4 seconds after the first, second and third attempt
    (two to the power of the attempt index), and then fails: it returns
    [None] after logging the failure with the attempt count and the
    address. *)
Theorem get_location_three_timeouts (env : Env) (address : string)
    (w : World) :
  (∀ h a, geocode env h a = GeoTimedOut) →
  get_location env address 3 w
  = (Return None,
     add_events
       [EvGeocode address;
        EvLog WARNING ("Geocoding timed out for " +:+ address
                       +:+ ", attempt 1/3");
        EvSleep 1;
        EvGeocode address;
        EvLog WARNING ("Geocoding timed out for " +:+ address
                       +:+ ", attempt 2/3");
        EvSleep 2;
        EvGeocode address;
        EvLog WARNING ("Geocoding timed out for " +:+ address
                       +:+ ", attempt 3/3");
        EvSleep 4;
        EvLog ERROR ("Failed to geocode address after 3 attempts: "
                     +:+ address)] w).
Proof.
  intros H. unfold get_location. change (py_range 3) with [0; 1; 2].
  rewrite !get_location_loop_timed_out by apply H.
  cbn [get_location_loop].
  rewrite get_location_failed_eq, !add_events_add_events.
  reflexivity.
Qed.

Lemma get_location_three_timeouts_witness :
  (get_location Scenario.env_timeouts "1 W Oak St" 3
     (Scenario.world_of PINDatabase.new_database)).1 = Return None
  ∧ geocode_calls
      (trace (get_location Scenario.env_timeouts "1 W Oak St" 3
                (Scenario.world_of PINDatabase.new_database)).2)
    = ["1 W Oak St"; "1 W Oak St"; "1 W Oak St"]
  ∧ sleeps
      (trace (get_location Scenario.env_timeouts "1 W Oak St" 3
                (Scenario.world_of PINDatabase.new_database)).2)
    = [1; 2; 4].
Proof.
  rewrite (get_location_three_timeouts Scenario.env_timeouts "1 W Oak St"
             (Scenario.world_of PINDatabase.new_database));
    [|reflexivity].
  split_and!; reflexivity.
Defined.

(** *** Where [process_location] saves the image *)

(** Decimal rendering on a fixed width can be read back. *)
Lemma zero_pad_2_parse n :
  0 ≤ n < 100 →
  String.length (zero_pad 2 n) = 2%nat
  ∧ parse_digits 0 (zero_pad 2 n) = n.
Proof.
  intros Hn.
  assert (H : Forall (λ n, String.length (zero_pad 2 n) = 2%nat
                           ∧ parse_digits 0 (zero_pad 2 n) = n)
                (seqZ 0 100)).
  { apply (bool_decide_unpack _). by vm_compute. }
  rewrite Forall_forall in H. apply H, elem_of_seqZ. lia.
Qed.

Lemma zero_pad_4_parse n :
  1000 ≤ n ≤ 9999 →
  String.length (zero_pad 4 n) = 4%nat
  ∧ parse_digits 0 (zero_pad 4 n) = n.
Proof.
  intros Hn.
  assert (H : Forall (λ n, String.length (zero_pad 4 n) = 4%nat
                           ∧ parse_digits 0 (zero_pad 4 n) = n)
                (seqZ 1000 9000)).
  { apply (bool_decide_unpack _). by vm_compute. }
  rewrite Forall_forall in H. apply H, elem_of_seqZ. lia.
Qed.

Lemma append_eq_inv (s1 s2 t1 t2 : string) :
  String.length s1 = String.length s2 →
  s1 +:+ t1 = s2 +:+ t2 → s1 = s2 ∧ t1 = t2.
Proof.
  revert s2. induction s1 as [|a s1 IH]; intros [|b s2] Hlen Heq;
    try discriminate.
  - done.
  - change (String a (s1 +:+ t1) = String b (s2 +:+ t2)) in Heq.
    injection Heq as -> Heq. injection Hlen as Hlen.
    destruct (IH _ Hlen Heq) as [-> ->]. done.
Qed.

Lemma length_append (s t : string) :
  String.length (s +:+ t) = (String.length s + String.length t)%nat.
Proof.
  induction s as [|a s IH]; [done|].
  change (S (String.length (s +:+ t))
          = S (String.length s + String.length t)). by rewrite IH.
Qed.

Lemma strftime_length dt :
  valid_datetime dt → String.length (strftime_Ymd_HMS dt) = 15%nat.
Proof.
  intros (Hy & Hm & Hd & Hh & Hmi & Hs). unfold strftime_Ymd_HMS.
  rewrite !length_append.
  destruct (zero_pad_4_parse _ Hy) as [-> _].
  destruct (zero_pad_2_parse (month dt)) as [-> _]; [lia|].
  destruct (zero_pad_2_parse (day dt)) as [-> _]; [lia|].
  destruct (zero_pad_2_parse (hour dt)) as [-> _]; [lia|].
  destruct (zero_pad_2_parse (minute dt)) as [-> _]; [lia|].
  destruct (zero_pad_2_parse (second dt)) as [-> _]; [lia|].
  reflexivity.
Qed.

(** The rendering keeps exactly the fields down to the second. *)
Lemma strftime_inj dt1 dt2 :
  valid_datetime dt1 → valid_datetime dt2 →
  strftime_Ymd_HMS dt1 = strftime_Ymd_HMS dt2 →
  to_the_second dt1 = to_the_second dt2.
Proof.
  intros (Hy1 & Hm1 & Hd1 & Hh1 & Hmi1 & Hs1)
         (Hy2 & Hm2 & Hd2 & Hh2 & Hmi2 & Hs2) Heq.
  unfold strftime_Ymd_HMS in Heq.
  destruct (zero_pad_4_parse _ Hy1) as [Ly1 Py1].
  destruct (zero_pad_4_parse _ Hy2) as [Ly2 Py2].
  destruct (zero_pad_2_parse (month dt1)) as [Lm1 Pm1]; [lia|].
  destruct (zero_pad_2_parse (month dt2)) as [Lm2 Pm2]; [lia|].
  destruct (zero_pad_2_parse (day dt1)) as [Ld1 Pd1]; [lia|].
  destruct (zero_pad_2_parse (day dt2)) as [Ld2 Pd2]; [lia|].
  destruct (zero_pad_2_parse (hour dt1)) as [Lh1 Ph1]; [lia|].
  destruct (zero_pad_2_parse (hour dt2)) as [Lh2 Ph2]; [lia|].
  destruct (zero_pad_2_parse (minute dt1)) as [Lmi1 Pmi1]; [lia|].
  destruct (zero_pad_2_parse (minute dt2)) as [Lmi2 Pmi2]; [lia|].
  destruct (zero_pad_2_parse (second dt1)) as [Ls1 Ps1]; [lia|].
  destruct (zero_pad_2_parse (second dt2)) as [Ls2 Ps2]; [lia|].
  apply append_eq_inv in Heq as [Ey Heq]; [|congruence].
  apply append_eq_inv in Heq as [Em Heq]; [|congruence].
  apply append_eq_inv in Heq as [Ed Heq]; [|congruence].
  apply append_eq_inv in Heq as [_ Heq]; [|done].
  apply append_eq_inv in Heq as [Eh Heq]; [|congruence].
  apply append_eq_inv in Heq as [Emi Es]; [|congruence].
  unfold to_the_second.
  rewrite <- Py1, <- Py2, <- Pm1, <- Pm2, <- Pd1, <- Pd2,
          <- Ph1, <- Ph2, <- Pmi1, <- Pmi2, <- Ps1, <- Ps2.
  by rewrite Ey, Em, Ed, Eh, Emi, Es.
Qed.

(** Whether [os.path.join] keeps the directory depends on the pin
    alone, not on the timestamp that follows it. *)
Lemma startswith_sep_filename pin x y :
  str_startswith (pin +:+ "_" +:+ x) "/"
  = str_startswith (pin +:+ "_" +:+ y) "/".
Proof.
  unfold str_startswith. destruct pin as [|a pin].
  - reflexivity.
  - change (String.prefix "/" (String a (pin +:+ "_" +:+ x))
            = String.prefix "/" (String a (pin +:+ "_" +:+ y))).
    cbn [String.prefix].
    assert (Hnil : ∀ s, String.prefix EmptyString s = true)
      by (by intros []).
    destruct (ascii_dec _ a); [by rewrite !Hnil|done].
Qed.

Lemma os_path_join_filename_inj a pin x y :
  String.length x = String.length y →
  os_path_join a (pin +:+ "_" +:+ x +:+ ".jpg")
  = os_path_join a (pin +:+ "_" +:+ y +:+ ".jpg") →
  x = y.
Proof.
  intros Hlen. unfold os_path_join.
  rewrite (startswith_sep_filename pin (x +:+ ".jpg") (y +:+ ".jpg")).
  assert (Hname : pin +:+ "_" +:+ x +:+ ".jpg" = pin +:+ "_" +:+ y +:+ ".jpg"
                  → x = y).
  { intros H. do 2 apply (inj (String.app _)) in H.
    by apply append_eq_inv in H as [-> _]. }
  destruct (str_startswith _ _); [exact Hname|].
  destruct (_ || _); intros H; apply Hname.
  - by apply (inj (String.app _)) in H.
  - by do 2 apply (inj (String.app _)) in H.
Qed.

(** For one client and one pin, two clock readings give the same path
    exactly when they fall in the same second. *)
Lemma image_path_of_eq_iff self pin dt1 dt2 :
  valid_datetime dt1 → valid_datetime dt2 →
  image_path_of self pin dt1 = image_path_of self pin dt2
  ↔ to_the_second dt1 = to_the_second dt2.
Proof.
  intros H1 H2. split.
  - intros Heq. apply strftime_inj; [done..|].
    eapply os_path_join_filename_inj; [|exact Heq].
    by rewrite !strftime_length.
  - unfold to_the_second, image_path_of, strftime_Ymd_HMS.
    intros [= -> -> -> -> -> ->]. reflexivity.
Qed.

(** [get_location] never raises and touches nothing but the trace. *)
Lemma get_location_loop_returns env address retries attempts w :
  ∃ o tr, get_location_loop env address retries attempts w
          = (Return o, add_events tr w).
Proof.
  revert w. induction attempts as [|attempt rest IH]; intros w.
  - eexists _, _. apply get_location_failed_eq.
  - cbn [get_location_loop].
    unfold mbind, M_bind, geolocator_geocode at 1.
    destruct (geocode env (trace w) address) as [loc| | |e|e];
      rewrite ?time_sleep_pow, ?(time_sleep_nonneg 1) by lia;
      unfold logger, emit, add_event.
    + rewrite add_events_add_events. eauto.
    + destruct (IH (add_events [EvGeocode address; EvSleep 1] w))
        as (o & tr & Heq).
      rewrite add_events_add_events. simpl. rewrite Heq.
      rewrite add_events_add_events. eauto.
    + rewrite !add_events_add_events. simpl.
      edestruct IH as (o & tr & ->).
      rewrite add_events_add_events. eauto.
    + rewrite get_location_failed_eq, !add_events_add_events. eauto.
    + rewrite get_location_failed_eq, !add_events_add_events. eauto.
Qed.

Lemma get_street_view_image_returns env self lat lon heading w :
  ∃ o tr, get_street_view_image env self lat lon heading w
          = (Return o, add_events tr w).
Proof.
  unfold get_street_view_image, mbind, M_bind, requests_get, add_event.
  destruct (http_get _ _ _ _) as [resp|e];
    [case_decide; [destruct (str_contains _ _)|]|]; eauto.
Qed.

(** A successful [process_location] ends by reading the clock and
    writing the image to the path made from the pin and that reading;
    the path is what the result carries. *)
Lemma process_location_success env self pin address w res w' :
  process_location env self pin address w = (Return res, w') →
  r_status res = "success" →
  ∃ pre dt,
    trace w' = trace w ++ pre
               ++ [EvNow dt; EvWrite (image_path_of self pin dt)]
    ∧ dt = now env (trace w ++ pre)
    ∧ r_image_path res = Some (image_path_of self pin dt).
Proof.
  unfold process_location, get_location. intros Hrun Hst.
  unfold mbind at 1, M_bind at 1 in Hrun.
  destruct (get_location_loop_returns env address 3 (py_range 3) w)
    as (o & tr1 & Heq1).
  rewrite Heq1 in Hrun. destruct o as [loc|].
  2: { injection Hrun as <- _. discriminate. }
  unfold mbind at 1, M_bind at 1 in Hrun.
  destruct (get_street_view_image_returns env self (loc_latitude loc)
              (loc_longitude loc) None (add_events tr1 w))
    as (img & tr2 & Heq2).
  rewrite Heq2, add_events_add_events in Hrun.
  destruct (truthy img).
  2: { injection Hrun as <- _. discriminate. }
  unfold mbind, M_bind, datetime_now, write_file, add_event in Hrun.
  simpl in Hrun.
  destruct (has_nul _); [discriminate|].
  destruct (write_error _ _ _) as [e|].
  { destruct (write_partial _ _ _); injection Hrun as <- _; discriminate. }
  injection Hrun as <- <-. exists (tr1 ++ tr2), (now env (trace w ++ tr1 ++ tr2)).
  simpl. split_and!; [|done..].
  by rewrite <- !app_assoc.
Qed.

(** C8, as amended. The file name is made from the pin and the clock
    reading rendered to whole seconds. Two successful [process_location]
    calls of one client for the same pin write to distinct paths exactly
    when their clock readings (taken as the calendar allows, with a
    four-digit year) differ in a field from the year down to the second;
    two acquisitions within one second get the same path. *)
Theorem image_path_distinct_iff_other_second (env : Env)
    (self : StreetViewClient) (pin a1 a2 : string)
    (w1 w1' w2 w2' : World) (res1 res2 : ProcessResult) :
  (∀ h, valid_datetime (now env h)) →
  process_location env self pin a1 w1 = (Return res1, w1') →
  r_status res1 = "success" →
  process_location env self pin a2 w2 = (Return res2, w2') →
  r_status res2 = "success" →
  ∃ pre1 pre2 dt1 dt2,
    trace w1' = trace w1 ++ pre1
                ++ [EvNow dt1; EvWrite (image_path_of self pin dt1)]
    ∧ trace w2' = trace w2 ++ pre2
                  ++ [EvNow dt2; EvWrite (image_path_of self pin dt2)]
    ∧ r_image_path res1 = Some (image_path_of self pin dt1)
    ∧ r_image_path res2 = Some (image_path_of self pin dt2)
    ∧ (r_image_path res1 ≠ r_image_path res2
       ↔ to_the_second dt1 ≠ to_the_second dt2).
Proof.
  intros Hclock Hrun1 Hst1 Hrun2 Hst2.
  destruct (process_location_success _ _ _ _ _ _ _ Hrun1 Hst1)
    as (pre1 & dt1 & Htr1 & Hdt1 & Hp1).
  destruct (process_location_success _ _ _ _ _ _ _ Hrun2 Hst2)
    as (pre2 & dt2 & Htr2 & Hdt2 & Hp2).
  exists pre1, pre2, dt1, dt2. split_and!; try done.
  rewrite Hp1, Hp2.
  rewrite <- (image_path_of_eq_iff self pin dt1 dt2)
    by (subst; apply Hclock).
  split; intros H Heq; apply H; congruence.
Qed.

Lemma image_path_distinct_iff_other_second_witness :
  ∃ pre1 pre2 dt1 dt2,
    trace Scenario.first_acquisition.2
    = trace (Scenario.world_of Scenario.store_abc) ++ pre1
      ++ [EvNow dt1; EvWrite (image_path_of Scenario.street_view "A" dt1)]
    ∧ trace Scenario.second_acquisition.2
      = trace Scenario.first_acquisition.2 ++ pre2
        ++ [EvNow dt2; EvWrite (image_path_of Scenario.street_view "A" dt2)]
    ∧ r_image_path Scenario.acquired_A
      = Some (image_path_of Scenario.street_view "A" dt1)
    ∧ r_image_path Scenario.acquired_A
      = Some (image_path_of Scenario.street_view "A" dt2)
    ∧ (r_image_path Scenario.acquired_A ≠ r_image_path Scenario.acquired_A
       ↔ to_the_second dt1 ≠ to_the_second dt2).
Proof.
  apply (image_path_distinct_iff_other_second Scenario.env_all_up
           Scenario.street_view "A" "1 W Oak St" "1 W Oak St"
           (Scenario.world_of Scenario.store_abc)
           Scenario.first_acquisition.2
           Scenario.first_acquisition.2
           Scenario.second_acquisition.2
           Scenario.acquired_A Scenario.acquired_A).
  - intros h. unfold valid_datetime. simpl. lia.
  - by vm_compute.
  - reflexivity.
  - by vm_compute.
  - reflexivity.
Defined.

(** C8, counterexample. Two successful acquisitions for pin ["A"], made
    one after the other within the same second: the clock readings
    differ, both calls succeed, both report the same path, and the
    photograph written by the first call is replaced by the second. *)
Lemma same_second_same_path :
  Scenario.first_fast.1 = Return Scenario.acquired_A
  ∧ Scenario.second_fast.1 = Return Scenario.acquired_A
  ∧ trace Scenario.first_fast.2 !! 3%nat
    = Some (EvNow (mk_datetime 2024 5 17 9 30 0 3))
  ∧ trace Scenario.second_fast.2 !! 8%nat
    = Some (EvNow (mk_datetime 2024 5 17 9 30 0 8))
  ∧ mk_datetime 2024 5 17 9 30 0 3 ≠ mk_datetime 2024 5 17 9 30 0 8
  ∧ files Scenario.first_fast.2 !! "images/A_20240517_093000.jpg"
    = Some "first photo"
  ∧ files Scenario.second_fast.2 !! "images/A_20240517_093000.jpg"
    = Some "second photo".
Proof.
  split_and!; by vm_compute.
Qed.

End StreetViewClientFacts.

(** ** BlueskyClient *)

Module BlueskyClientFacts.
Import BlueskyClient.

(** [_upload_image] adds to the trace and touches nothing else; it
    returns unless the path holds a NUL byte. *)
Lemma _upload_image_outcome env path w :
  ∃ r tr, _upload_image env path w = (r, add_events tr w)
          ∧ (has_nul path = false → ∃ blob, r = Return blob).
Proof.
  unfold _upload_image, mbind, M_bind, read_file, session_post, add_event.
  destruct (files w !! path) as [data|]; simpl.
  - destruct (http_post _ _ _) as [resp|e]; [case_decide|];
      rewrite add_events_add_events; eauto.
  - destruct (has_nul path).
    + exists (Raise (ValueError "embedded null byte")), [].
      by rewrite add_events_nil.
    + eauto.
Qed.

Lemma create_record_eq env text createdAt embed w :
  create_record env text createdAt embed w
  = let request :=
      {| req_url := api_base +:+ "/com.atproto.repo.createRecord";
         req_authorization := session_authorization (bluesky w);
         req_content_type := None;
         req_payload :=
           CreateRecord (did (bluesky w)) "app.bsky.feed.post"
             {| post_text := text; post_createdAt := createdAt;
                post_embed := embed |} |} in
    (Return match http_post env (trace w) request with
            | HttpResponse resp =>
                if decide (status_code resp = 200) then json_uri resp
                else None
            | HttpRequestException _ => None
            end,
     add_event (EvPost request) w).
Proof.
  unfold create_record, mbind, M_bind, get_world, session_post. simpl.
  destruct (http_post _ _ _) as [resp|e]; [case_decide|]; reflexivity.
Qed.

(** With a session and an image path without NUL byte, [post] does not
    raise: whatever the upload does, it returns a post URI or [None]. *)
Lemma post_with_session_returns env text image_path w :
  truthy (auth_token (bluesky w)) = true →
  has_nul (default EmptyString image_path) = false →
  ∃ uri w', post env text image_path w = (Return uri, w').
Proof.
  intros Hs Hnul. unfold post, mbind at 1 2, M_bind at 1 2, get_world.
  rewrite Hs. unfold mret, M_ret. simpl.
  unfold mbind at 1 2, M_bind at 1 2, datetime_utcnow.
  destruct (truthy image_path).
  - unfold mbind, M_bind.
    destruct (_upload_image_outcome env (default EmptyString image_path)
                (add_event (EvUtcNow (utcnow env (trace w))) w))
      as (r & tr & -> & Hret).
    destruct (Hret Hnul) as [blob ->].
    rewrite create_record_eq. eauto.
  - rewrite create_record_eq. eauto.
Qed.

(** C6. With a valid session and an image path, when [_upload_image]
    gives no blob reference, [post] still submits the record, without
    embed, and when the platform answers 200 it returns the URI the
    platform assigned; nothing is raised. *)
Theorem post_text_only_when_upload_fails (env : Env) (text path : string)
    (w : World) (blob : option string) (w_up : World) (resp : response) :
  truthy (auth_token (bluesky w)) = true →
  truthy (Some path) = true →
  _upload_image env path
    (add_event (EvUtcNow (utcnow env (trace w))) w) = (Return blob, w_up) →
  truthy blob = false →
  http_post env (trace w_up)
    (text_only_request (bluesky w) text (utcnow env (trace w)))
  = HttpResponse resp →
  status_code resp = 200 →
  post env text (Some path) w
  = (Return (json_uri resp),
     add_event
       (EvPost (text_only_request (bluesky w) text (utcnow env (trace w))))
       w_up).
Proof.
  intros Hs Hp Hup Hblob Hresp H200.
  assert (Hb : bluesky w_up = bluesky w).
  { destruct (_upload_image_outcome env path
                (add_event (EvUtcNow (utcnow env (trace w))) w))
      as (b & tr & Heq & _).
    rewrite Heq in Hup. by injection Hup as _ <-. }
  destruct path as [|a path]; [discriminate|]. clear Hp.
  unfold post, mbind at 1 2, M_bind at 1 2, get_world.
  rewrite Hs. unfold mret, M_ret. simpl.
  unfold mbind at 1 2, M_bind at 1 2, datetime_utcnow.
  unfold mbind, M_bind. simpl. rewrite Hup.
  unfold embed_of. rewrite Hblob.
  rewrite create_record_eq. simpl. rewrite Hb.
  unfold text_only_request in Hresp. rewrite Hresp.
  by rewrite decide_True.
Qed.

Lemma post_text_only_when_upload_fails_witness :
  post Scenario.env_upload_refused "1 W Oak St" (Some "images/A.jpg")
    Scenario.world_logged_in
  = (Return (Some "at://did:plc:lots/post/1"),
     add_events
       [EvUtcNow Scenario.morning;
        EvRead "images/A.jpg";
        EvPost (mk_post_request
                  "https://bsky.social/xrpc/com.atproto.repo.uploadBlob"
                  (Some "Bearer jwt-1") (Some "image/jpeg")
                  (UploadBlob "JPEG-bytes"));
        EvPost (text_only_request Scenario.client_logged_in "1 W Oak St"
                  Scenario.morning)]
       Scenario.world_logged_in).
Proof.
  rewrite (post_text_only_when_upload_fails Scenario.env_upload_refused
             "1 W Oak St" "images/A.jpg" Scenario.world_logged_in None
             (add_events
                [EvUtcNow Scenario.morning;
                 EvRead "images/A.jpg";
                 EvPost (mk_post_request
                   "https://bsky.social/xrpc/com.atproto.repo.uploadBlob"
                   (Some "Bearer jwt-1") (Some "image/jpeg")
                   (UploadBlob "JPEG-bytes"))]
                Scenario.world_logged_in)
             (Scenario.created_response "at://did:plc:lots/post/1"));
    reflexivity.
Defined.

End BlueskyClientFacts.

(** ** The driving loop *)

Module MainFacts.
Import PINDatabase StreetViewClient Main.

(** A record whose image cannot be obtained: the error is recorded and
    the [continue] statement ends the pass; the world is left as
    [process_location] left it, but for the database. *)
Lemma process_property_image_error env config sv prop w res w1 :
  process_location env sv (p_pin prop) (p_address prop) w
  = (Return res, w1) →
  r_status res = "error" →
  process_property env config sv prop w
  = (Return (),
     set_db (record_error (db w1) (p_pin prop) (r_error res)).2 w1).
Proof.
  intros Hloc Hst.
  unfold process_property, try_except, process_property_try.
  unfold mbind at 1 2, M_bind at 1 2. rewrite Hloc.
  rewrite bool_decide_eq_true_2 by done. reflexivity.
Qed.

(** A record whose image was obtained: whether the post is created,
    refused, or [post] raises, the pass ends with the pause (of a delay
    that [time.sleep] accepts). *)
Lemma process_property_image_ok env config sv prop w res w1 :
  0 ≤ post_interval config →
  process_location env sv (p_pin prop) (p_address prop) w
  = (Return res, w1) →
  r_status res ≠ "error" →
  ∃ w2, process_property env config sv prop w
        = (Return (), add_event (EvSleep (post_interval config)) w2).
Proof.
  intros Hpi Hloc Hst.
  unfold process_property, try_except, process_property_try.
  unfold mbind at 1 2, M_bind at 1 2. rewrite Hloc.
  rewrite bool_decide_eq_false_2 by done.
  unfold mbind at 1, M_bind at 1. rewrite time_sleep_nonneg by done.
  destruct (BlueskyClient.post _ _ _ _) as [[uri|e] w2].
  - destruct (truthy uri); eexists; reflexivity.
  - eexists; reflexivity.
Qed.

(** Which passes end with the pause. When [process_location] returns a
    result whose status is not ["error"], then whether the post is
    created, the platform refuses it, or [post] raises, the pass ends
    with the pause of the configured delay. When the status is
    ["error"], the error is recorded and [continue] leaves the pass at
    once: nothing, and in particular no pause, follows what
    [process_location] did. *)
Lemma pause_follows_unless_image_failed (env : Env) (config : Config)
    (sv : StreetViewClient) (prop : Property) (w : World)
    (res : ProcessResult) (w1 : World) :
  0 ≤ post_interval config →
  process_location env sv (p_pin prop) (p_address prop) w
  = (Return res, w1) →
  (r_status res ≠ "error" →
   ∃ w2, process_property env config sv prop w
         = (Return (), add_event (EvSleep (post_interval config)) w2))
  ∧ (r_status res = "error" →
     process_property env config sv prop w
     = (Return (),
        set_db (record_error (db w1) (p_pin prop) (r_error res)).2 w1)
     ∧ trace (process_property env config sv prop w).2 = trace w1).
Proof.
  intros Hpi Hloc. split.
  - intros Hst. by eapply process_property_image_ok.
  - intros Hst.
    rewrite (process_property_image_error _ _ _ _ _ _ _ Hloc Hst).
    done.
Qed.

(** C5, at the failing input. A batch of two records for which the
    geocoding service is unavailable: both are processed, both errors are
    recorded, and the trace holds no pause at all, although the
    configured delay is 300 seconds. The same batch pauses after each
    record when it is the platform that refuses the post or the
    credentials. *)
Theorem image_failure_skips_the_pause :
  trace (process_properties Scenario.env_geocoder_down Scenario.config
           Scenario.street_view
           (get_next_unposted Scenario.store_abc 2)
           (Scenario.world_of Scenario.store_abc)).2
  = [EvGeocode "1 W Oak St";
     EvLog ERROR "Geocoding service unavailable: service down";
     EvLog ERROR "Failed to geocode address after 3 attempts: 1 W Oak St";
     EvGeocode "2 W Oak St";
     EvLog ERROR "Geocoding service unavailable: service down";
     EvLog ERROR "Failed to geocode address after 3 attempts: 2 W Oak St"]
  ∧ error_count <$>
      pins (db (process_properties Scenario.env_geocoder_down
                  Scenario.config Scenario.street_view
                  (get_next_unposted Scenario.store_abc 2)
                  (Scenario.world_of Scenario.store_abc)).2) !! "A"
    = Some 1
  ∧ sleeps (trace (process_properties Scenario.env_record_refused
                     Scenario.config Scenario.street_view
                     (get_next_unposted Scenario.store_abc 2)
                     (Scenario.world_of Scenario.store_abc)).2)
    = [300; 300]
  ∧ sleeps (trace (process_properties Scenario.env_session_refused
                     Scenario.config Scenario.street_view
                     (get_next_unposted Scenario.store_abc 2)
                     (Scenario.world_of Scenario.store_abc)).2)
    = [300; 300].
Proof. split_and!; by vm_compute. Qed.

(** The end-to-end example of the specification: one eligible record,
    every service answering. One pass of the loop posts it, records one
    history entry, and the statistics then show one posted record and
    none remaining. *)
Example one_cycle_posts_the_record :
  let c := run_ops new_database
             [OpAddPin "P1" "123 Main St" None None] in
  let w := (main_iteration Scenario.env_all_up Scenario.config
              Scenario.street_view (Scenario.world_of c)).2 in
  posted <$> pins (db w) !! "P1" = Some 1
  ∧ (λ h, (h_pin h, h_post_id h)) <$> post_history (db w)
    = [("P1", "at://did:plc:lots/post/1")]
  ∧ get_statistics (db w)
    = Return (mk_statistics (Some 1) (Some 1) (Some 0) (Some 0)).
Proof. split_and!; by vm_compute. Qed.

(** On a database without any pin the pass never reaches the batch: the
    [TypeError] of [get_statistics] is caught by the handler of the
    loop, which pauses for a minute. *)
Example empty_database_cools_down :
  main_iteration Scenario.env_all_up Scenario.config Scenario.street_view
    (Scenario.world_of new_database)
  = (Return (), add_event (EvSleep 60) (Scenario.world_of new_database)).
Proof. reflexivity. Qed.

End MainFacts.

(** ** PINDatabase, further properties *)

Module StoreFacts.
Import PINDatabase PINDatabaseFacts Store.

#[local] Existing Instances pin_le_trans pin_le_total.

(** *** What every sequence of calls keeps *)

Lemma store_ok_new : store_ok new_database.
Proof. split; [intros p r Hr; simpl in Hr; by rewrite lookup_empty in Hr|done]. Qed.

Lemma history_count_mono c op p :
  (history_count c p ≤ history_count (run_op c op) p)%nat.
Proof. rewrite history_count_run_op. lia. Qed.

Lemma store_ok_run_op c op : store_ok c → store_ok (run_op c op).
Proof.
  intros [Hrows Hids]. split.
  - intros p r Hr.
    destruct op as [q a lat lon| |t q u i|q m|]; simpl in Hr.
    + destruct (decide (q = p)) as [->|Hne].
      * rewrite lookup_insert_eq in Hr. injection Hr as <-.
        split; [split; [by left|done]|simpl; lia].
      * rewrite lookup_insert_ne in Hr by done.
        destruct (Hrows p r Hr) as [? ?]. done.
    + by apply Hrows.
    + rewrite lookup_alter in Hr. case_decide as Hq.
      * subst q. destruct (pins c !! p) as [r0|] eqn:Hr0; [|done].
        injection Hr as <-. destruct (Hrows p r0 Hr0) as [[_ He] _].
        split; [split; [right; simpl; eauto|done]|].
        intros _.
        pose proof (history_count_run_op c (OpMarkPosted t p u i) p) as H.
        rewrite decide_True in H by done. lia.
      * destruct (Hrows p r Hr) as [? Hh]. split; [done|].
        intros Hp. specialize (Hh Hp).
        pose proof (history_count_mono c (OpMarkPosted t q u i) p) as Hm.
        lia.
    + rewrite lookup_alter in Hr. case_decide as Hq.
      * subst q. destruct (pins c !! p) as [r0|] eqn:Hr0; [|done].
        injection Hr as <-. destruct (Hrows p r0 Hr0) as [[Hp He] Hh].
        split; [split; [exact Hp|simpl; lia]|exact Hh].
      * by apply Hrows.
    + by apply Hrows.
  - destruct op as [q a lat lon| |t q u i|q m|]; simpl; try done.
    rewrite fmap_app, length_app, Hids. simpl.
    rewrite Nat2Z.inj_add, seqZ_app by lia. f_equal.
    change (Z.of_nat 1) with 1. rewrite (seqZ_cons _ 1) by lia.
    f_equal. lia.
Qed.

Lemma store_ok_run_ops_from c ops : store_ok c → store_ok (run_ops c ops).
Proof.
  revert c. induction ops as [|op ops IH]; intros c Hc; [done|].
  simpl. apply IH. by apply store_ok_run_op.
Qed.


(** X4. No call removes a [pins] row, and no call removes or changes a
    history entry: the pins of a store are still there after any
    sequence of calls, and its history is a prefix of the later one. *)
Theorem nothing_is_deleted (c : Conn) (ops : list store_op) :
  dom (pins c) ⊆ dom (pins (run_ops c ops))
  ∧ post_history c `prefix_of` post_history (run_ops c ops).
Proof.
  revert c. induction ops as [|op ops IH]; intros c; [done|].
  simpl. destruct (IH (run_op c op)) as [Hd Hp]. split.
  - etrans; [|exact Hd].
    destruct op as [q a lat lon| |t q u i|q m|]; simpl; try done.
    + rewrite dom_insert_L. apply union_subseteq_r.
    + by rewrite dom_alter_L.
    + by rewrite dom_alter_L.
  - etrans; [|exact Hp].
    destruct op as [q a lat lon| |t q u i|q m|]; simpl; try done.
    by apply prefix_app_r.
Qed.

(** *** Statistics and the queue *)

(** X1. [get_statistics] returns a dictionary exactly when the store
    holds at least one pin. The dictionary it returns gives the number
    of rows, the number of posted rows, the number of rows with three or
    more errors, and as [remaining] the first minus the other two. *)
Theorem get_statistics_returns_iff (c : Conn) :
  let rows := (map_to_list (pins c)).*2 in
  let total := Z.of_nat (size (pins c)) in
  let n_posted := Z.of_nat (length (filter (λ r, posted r = 1) rows)) in
  let n_failed :=
    Z.of_nat (length (filter (λ r, 3 ≤ error_count r) rows)) in
  ((∃ s, get_statistics c = Return s) ↔ pins c ≠ ∅)
  ∧ ∀ s, get_statistics c = Return s →
         total_pins s = Some total
         ∧ posted_count s = Some n_posted
         ∧ failed_count s = Some n_failed
         ∧ remaining s = Some (total - n_posted - n_failed).
Proof.
  intros rows total n_posted n_failed.
  destruct (decide (pins c = ∅)) as [Hc|Hc].
  - assert (Hr : get_statistics c
                 = Raise (TypeError
                            "unsupported operand type(s) for -: 'int' and 'NoneType'")).
    { unfold get_statistics, statistics_row.
      by rewrite Hc, map_to_list_empty. }
    rewrite Hr. split; [|done]. split; [by intros [s ?]|done].
  - pose proof (get_statistics_nonempty c Hc) as Hs. cbn zeta in Hs.
    rewrite Hs. split; [split; [done|by eexists]|].
    by intros s [= <-].
Qed.

Lemma count_rows (l : list (string * PinRow)) :
  Forall (λ kr, row_ok kr.2) l →
  Z.of_nat (length l)
  - Z.of_nat (length (filter (λ r, posted r = 1) l.*2))
  - Z.of_nat (length (filter (λ r, 3 ≤ error_count r) l.*2))
  = Z.of_nat (length (filter (λ kr, unposted_where kr.2) l))
    - Z.of_nat (length (filter posted_and_failed l.*2)).
Proof.
  induction 1 as [|[q r] l [Hp _] _ IH]; [done|].
  rewrite fmap_cons, !filter_cons. simpl in *.
  unfold unposted_where, posted_and_failed in *.
  repeat case_decide; simpl; lia.
Qed.

Lemma get_next_unposted_all_length c :
  length (get_next_unposted c (-1))
  = length (filter (λ kr, unposted_where kr.2) (map_to_list (pins c))).
Proof.
  unfold get_next_unposted, sql_limit. rewrite decide_True by lia.
  by rewrite length_fmap, unposted_rows_perm.
Qed.

(** X3. On a consistent store with at least one pin, [remaining] is the
    number of records that [get_next_unposted] would still return, less
    the number of rows that are both posted and permanently failed:
    such a row is subtracted twice. *)
Theorem remaining_is_queue_length (c : Conn) :
  store_ok c → pins c ≠ ∅ →
  ∃ st, get_statistics c = Return st
        ∧ remaining st
          = Some (Z.of_nat (length (get_next_unposted c (-1)))
                  - Z.of_nat (length (filter posted_and_failed
                                        (map_to_list (pins c)).*2))).
Proof.
  intros [Hrows _] Hne. eexists. split; [by apply get_statistics_nonempty|].
  simpl. f_equal. rewrite get_next_unposted_all_length.
  rewrite <- length_map_to_list. apply count_rows.
  apply Forall_forall. intros [q r] Hin%elem_of_map_to_list.
  by destruct (Hrows q r Hin).
Qed.

Lemma remaining_is_queue_length_witness :
  ∃ st, get_statistics
          (run_ops Scenario.store_posted
             [OpRecordError "A" None; OpRecordError "A" None;
              OpRecordError "A" None]) = Return st
        ∧ remaining st = Some (0 - 1).
Proof.
  destruct (remaining_is_queue_length
              (run_ops Scenario.store_posted
                 [OpRecordError "A" None; OpRecordError "A" None;
                  OpRecordError "A" None]))
    as (st & Hst & Hrem).
  - apply store_ok_run_ops_from, store_ok_run_ops_from, store_ok_new.
  - by vm_compute.
  - exists st. split; [exact Hst|]. rewrite Hrem. by vm_compute.
Defined.

(** *** Repeated failures, and calls for pins the store does not hold *)

Lemma after_errors_cons r m msgs :
  after_errors (add_error m r) msgs = after_errors r (m :: msgs).
Proof.
  unfold after_errors, add_error.
  cbn [address latitude longitude posted post_date error_count last_error
       length].
  f_equal; [lia|].
  destruct msgs as [|m' msgs]; [done|]. rewrite last_cons_cons.
  destruct (last (m' :: msgs)) eqn:E; [done|]. by apply last_None in E.
Qed.

(** X5. [record_error] calls add up: after any number of them for a pin
    of the store, its [error_count] has grown by that number,
    [last_error] is the message of the last call, every other column is
    as before, and the pin is still eligible exactly when it is not
    posted and the new count is below 3. *)
Theorem record_error_accumulates (c : Conn) (pin : string) (r : PinRow)
    (msgs : list (option string)) :
  pins c !! pin = Some r →
  pins (run_ops c (OpRecordError pin <$> msgs)) !! pin
  = Some (after_errors r msgs)
  ∧ (eligible_pin (run_ops c (OpRecordError pin <$> msgs)) pin
     ↔ posted r = 0 ∧ error_count r + Z.of_nat (length msgs) < 3)
  ∧ post_history (run_ops c (OpRecordError pin <$> msgs)) = post_history c.
Proof.
  intros Hr.
  assert (H : pins (run_ops c (OpRecordError pin <$> msgs)) !! pin
              = Some (after_errors r msgs)
              ∧ post_history (run_ops c (OpRecordError pin <$> msgs))
                = post_history c).
  { revert c r Hr. induction msgs as [|m msgs IH]; intros c r Hr.
    - split; [|done]. simpl. rewrite Hr. f_equal. destruct r.
      unfold after_errors. simpl. f_equal. lia.
    - rewrite fmap_cons. simpl.
      destruct (IH (record_error c pin m).2 (add_error m r)) as [H1 H2].
      { simpl. rewrite lookup_alter, decide_True by done. by rewrite Hr. }
      split; [by rewrite <- after_errors_cons|exact H2]. }
  destruct H as [Hrow Hhist]. split_and!; [done| |done].
  unfold eligible_pin. rewrite Hrow. split.
  - intros (r' & [= <-] & Hw). exact Hw.
  - intros Hw. eexists. split; [done|exact Hw].
Qed.

Lemma record_error_accumulates_witness :
  pins (run_ops Scenario.store_abc
          (OpRecordError "B" <$> [Some "Geocoding failed"; None;
                                  Some "No Street View image available"]))
    !! "B"
  = Some (mk_pin_row "2 W Oak St" None None 0 None 3
            (Some "No Street View image available")).
Proof.
  destruct (record_error_accumulates Scenario.store_abc "B"
              (mk_pin_row "2 W Oak St" None None 0 None 0 None)
              [Some "Geocoding failed"; None;
               Some "No Street View image available"])
    as (H & _); [by vm_compute|].
  rewrite H. reflexivity.
Defined.

(** X6. Calls for a pin that is not in the store: [record_error]
    returns [True] and changes nothing at all; [mark_posted] returns
    [True], creates no [pins] row, and still appends a history entry,
    which then belongs to no record. *)
Theorem calls_for_unknown_pin (c : Conn) (pin : string)
    (msg : option string) (t : datetime) (post_id : string)
    (image_path : option string) :
  pins c !! pin = None →
  record_error c pin msg = (true, c)
  ∧ (mark_posted c t pin post_id image_path).1 = true
  ∧ pins (mark_posted c t pin post_id image_path).2 = pins c
  ∧ history_count (mark_posted c t pin post_id image_path).2 pin
    = S (history_count c pin).
Proof.
  intros Hnone.
  assert (Hid : ∀ f : PinRow → PinRow, alter f pin (pins c) = pins c).
  { intros f. apply map_eq. intros q. rewrite lookup_alter.
    case_decide; [subst; by rewrite Hnone|done]. }
  split_and!.
  - unfold record_error. rewrite Hid. by destruct c.
  - done.
  - simpl. apply Hid.
  - pose proof (history_count_run_op c
                  (OpMarkPosted t pin post_id image_path) pin) as H.
    rewrite decide_True in H by done. etrans; [exact H|]. lia.
Qed.

Lemma calls_for_unknown_pin_witness :
  record_error Scenario.store_abc "Z" (Some "Geocoding failed")
  = (true, Scenario.store_abc).
Proof.
  apply (calls_for_unknown_pin Scenario.store_abc "Z"
           (Some "Geocoding failed") Scenario.morning "at://post/9" None).
  by vm_compute.
Defined.

(** *** The queue *)

Lemma sql_limit_unlimited {A} (n : Z) (l : list A) :
  n < 0 ∨ Z.of_nat (length l) ≤ n → sql_limit n l = l.
Proof.
  intros Hn. unfold sql_limit. case_decide; [done|].
  apply take_ge. lia.
Qed.

Lemma get_next_unposted_unlimited c n :
  unlimited n c → get_next_unposted c n = to_property <$> unposted_rows c.
Proof.
  intros Hn. unfold get_next_unposted. rewrite sql_limit_unlimited; [done|].
  pose proof (unposted_rows_length c). destruct Hn; [by left|right; lia].
Qed.

(** Without a limit, the queue holds exactly the eligible rows. *)
Lemma elem_of_queue c n p :
  unlimited n c →
  p ∈ get_next_unposted c n
  ↔ ∃ r, pins c !! p_pin p = Some r ∧ unposted_where r
         ∧ p = to_property (p_pin p, r).
Proof.
  intros Hn. split; [apply get_next_unposted_elem|].
  intros (r & Hr & Hw & ->). rewrite get_next_unposted_unlimited by done.
  apply list_elem_of_fmap. exists (p_pin (to_property (p_pin p, r)), r).
  split; [done|]. by apply elem_of_unposted_rows.
Qed.

Lemma queue_NoDup c n : NoDup (get_next_unposted c n).
Proof.
  apply (NoDup_fmap_1 p_pin). rewrite get_next_unposted_pins.
  eapply sublist_NoDup; [apply unposted_rows_NoDup|].
  apply fmap_sublist, sql_limit_sublist.
Qed.

(** X8. The queue is empty exactly when it has to be. For a limit of
    64 bits the call returns; a limit of 0 returns nothing, and any
    other limit returns nothing exactly when the store holds no row
    with [posted = 0] and [error_count < 3]. *)
Theorem get_next_unposted_empty_iff (c : Conn) (n : Z) :
  sqlite_int n →
  ∃ l,
    get_next_unposted_call c n = Return l
    ∧ (n = 0 → l = [])
    ∧ (n ≠ 0 →
       (l = [] ↔ ∀ q r, pins c !! q = Some r →
                        ¬ (posted r = 0 ∧ error_count r < 3))).
Proof.
  intros Hint. exists (get_next_unposted c n).
  split; [by apply get_next_unposted_call_int|]. split.
  - intros ->. reflexivity.
  - intros Hn. split.
    + intros Hnil q r Hr Hw.
      assert (Hin : (q, r) ∈ unposted_rows c)
        by (by apply elem_of_unposted_rows).
      unfold get_next_unposted, sql_limit in Hnil.
      apply fmap_nil_inv in Hnil.
      destruct (unposted_rows c) as [|x l]; [by apply elem_of_nil in Hin|].
      case_decide; [done|].
      destruct (Z.to_nat n) eqn:Hz; [lia|done].
    + intros Hno. unfold get_next_unposted.
      destruct (unposted_rows c) as [|[q r] l] eqn:Hl.
      { unfold sql_limit. case_decide; [done|]. by rewrite take_nil. }
      exfalso. apply (Hno q r).
      * assert (Hin : (q, r) ∈ unposted_rows c) by (rewrite Hl; by left).
        by apply elem_of_unposted_rows in Hin as [? _].
      * assert (Hin : (q, r) ∈ unposted_rows c) by (rewrite Hl; by left).
        by apply elem_of_unposted_rows in Hin as [_ ?].
Qed.

Lemma get_next_unposted_empty_iff_witness :
  ∃ l,
    get_next_unposted_call Scenario.store_posted 5 = Return l
    ∧ ((5 : Z) = 0 → l = [])
    ∧ ((5 : Z) ≠ 0 →
       (l = [] ↔ ∀ q r, pins Scenario.store_posted !! q = Some r →
                        ¬ (posted r = 0 ∧ error_count r < 3))).
Proof.
  apply (get_next_unposted_empty_iff Scenario.store_posted 5).
  unfold sqlite_int. lia.
Defined.

(** X9. A larger limit only extends the answer: for limits of 64 bits,
    what a limit [n] that is not negative returns is the first [n]
    records of what any larger limit, or a negative one, returns. *)
Theorem get_next_unposted_prefix (c : Conn) (n m : Z) :
  sqlite_int n → sqlite_int m →
  0 ≤ n → m < 0 ∨ n ≤ m →
  ∃ ln lm,
    get_next_unposted_call c n = Return ln
    ∧ get_next_unposted_call c m = Return lm
    ∧ ln = take (Z.to_nat n) lm.
Proof.
  intros Hin Him Hn Hm.
  exists (get_next_unposted c n), (get_next_unposted c m).
  split_and!; [by apply get_next_unposted_call_int..|].
  unfold get_next_unposted.
  rewrite <- fmap_take. f_equal.
  rewrite (sql_limit_nonneg n) by done. unfold sql_limit.
  case_decide; [done|]. rewrite take_take. f_equal. lia.
Qed.

Lemma get_next_unposted_prefix_witness :
  ∃ ln lm,
    get_next_unposted_call Scenario.store_abc 1 = Return ln
    ∧ get_next_unposted_call Scenario.store_abc 3 = Return lm
    ∧ ln = take 1 lm.
Proof.
  apply (get_next_unposted_prefix Scenario.store_abc 1 3);
    [unfold sqlite_int; lia..|lia|right; lia].
Defined.

Lemma StronglySorted_filter {A} (R : relation A) (P : A → Prop)
    `{!∀ x, Decision (P x)} (l : list A) :
  StronglySorted R l → StronglySorted R (filter P l).
Proof.
  induction 1 as [|x l _ IH Hx]; [constructor|].
  rewrite filter_cons. case_decide; [|done].
  constructor; [done|]. rewrite Forall_forall in Hx |- *.
  intros y [_ Hy]%list_elem_of_filter. auto.
Qed.

Lemma queue_sorted c n :
  StronglySorted (λ a b, String.le (p_pin a) (p_pin b))
    (get_next_unposted c n).
Proof.
  unfold get_next_unposted.
  apply (StronglySorted_fmap to_property pin_le).
  { intros a b H. exact H. }
  pose proof (StronglySorted_merge_sort pin_le
                (filter (λ kr, unposted_where kr.2) (map_to_list (pins c))))
    as Hs.
  fold (unposted_rows c) in Hs.
  unfold sql_limit. case_decide; [done|].
  rewrite <- (take_drop (Z.to_nat n) (unposted_rows c)) in Hs.
  by apply StronglySorted_app_1_l in Hs.
Qed.

(** Two stores that agree on every pin but one have the same queue of
    records with the other pins. *)
Lemma queue_agree c1 c2 (pin : string) :
  (∀ q, q ≠ pin → pins c1 !! q = pins c2 !! q) →
  filter (λ p, p_pin p ≠ pin) (get_next_unposted c1 (-1))
  = filter (λ p, p_pin p ≠ pin) (get_next_unposted c2 (-1)).
Proof.
  intros Hagree.
  assert (Helem : ∀ p, p ∈ filter (λ p, p_pin p ≠ pin) (get_next_unposted c1 (-1))
                  ↔ p ∈ filter (λ p, p_pin p ≠ pin) (get_next_unposted c2 (-1))).
  { intros p. rewrite !list_elem_of_filter.
    rewrite !elem_of_queue by (left; lia).
    split; intros (HP & r & Hr & Hw); (split; [done|]); exists r;
      [rewrite <- Hagree by done|rewrite Hagree by done]; done. }
  apply (StronglySorted_unique_strong
           (λ a b, String.le (p_pin a) (p_pin b))).
  - intros x1 x2 Hx1 Hx2 H12 H21.
    assert (Hpin : p_pin x1 = p_pin x2) by (by apply (anti_symm String.le)).
    apply Helem in Hx1.
    apply list_elem_of_filter in Hx1 as [_ Hx1], Hx2 as [_ Hx2].
    apply get_next_unposted_elem in Hx1 as (r1 & Hr1 & _ & Heq1).
    apply get_next_unposted_elem in Hx2 as (r2 & Hr2 & _ & Heq2).
    rewrite Hpin, Hr2 in Hr1. injection Hr1 as <-.
    rewrite Heq1, Heq2. by rewrite Hpin.
  - apply StronglySorted_filter, queue_sorted.
  - apply StronglySorted_filter, queue_sorted.
  - apply NoDup_Permutation; [apply NoDup_filter, queue_NoDup..|done].
Qed.

(** X10. A call writes to one pin only: whatever [add_pin],
    [mark_posted] or [record_error] does to its own pin, the queue of
    all other eligible records, with their order, addresses and
    coordinates, is the same before and after. *)
Theorem other_records_keep_their_place (c : Conn) (op : store_op)
    (pin : string) :
  op_pin op = Some pin →
  filter (λ p, p_pin p ≠ pin) (get_next_unposted (run_op c op) (-1))
  = filter (λ p, p_pin p ≠ pin) (get_next_unposted c (-1)).
Proof.
  intros Hop.
  apply queue_agree. intros q Hq.
  destruct op as [q' a lat lon| |t q' u i|q' m|]; simpl in *;
    try discriminate; injection Hop as ->.
  - by rewrite lookup_insert_ne.
  - by rewrite lookup_alter_ne.
  - by rewrite lookup_alter_ne.
Qed.

Lemma other_records_keep_their_place_witness :
  filter (λ p, p_pin p ≠ "A")
    (get_next_unposted
       (run_op Scenario.store_abc
          (OpMarkPosted Scenario.morning "A" "at://post/1" None)) (-1))
  = filter (λ p, p_pin p ≠ "A") (get_next_unposted Scenario.store_abc (-1)).
Proof.
  apply (other_records_keep_their_place Scenario.store_abc
           (OpMarkPosted Scenario.morning "A" "at://post/1" None) "A").
  reflexivity.
Defined.

(** *** Import *)

Lemma import_lookup (rows : list import_row) (q : string) (r : PinRow) :
  NoDup (import_pin <$> rows) →
  pins (run_ops new_database (import_op <$> rows)) !! q = Some r
  ↔ ∃ x, x ∈ rows ∧ import_pin x = q
         ∧ r = mk_pin_row x.1.1.2 (read_back x.1.2) (read_back x.2)
                 0 None 0 None.
Proof.
  assert (Hrb : ∀ v, sqlite_real v = read_back v)
    by (by intros [[[]| | |]|]).
  induction rows as [|x rows IH] using rev_ind; intros Hnd.
  - simpl. rewrite lookup_empty. split; [done|].
    by intros (x & Hx%elem_of_nil & _).
  - rewrite fmap_app in Hnd. apply NoDup_app in Hnd as (Hnd & Hnotin & _).
    rewrite fmap_app. unfold run_ops. rewrite foldl_app. simpl.
    fold (run_ops new_database (import_op <$> rows)).
    destruct (decide (import_pin x = q)) as [Hq|Hq].
    + unfold import_pin in Hq. rewrite Hq, lookup_insert_eq, !Hrb. split.
      * intros [= <-]. exists x. rewrite elem_of_app, list_elem_of_singleton.
        auto.
      * intros (y & [Hy| ->%list_elem_of_singleton]%elem_of_app & Hyq & ->);
          [|done].
        exfalso. apply (Hnotin q).
        -- apply list_elem_of_fmap. by exists y.
        -- simpl. apply list_elem_of_singleton. done.
    + unfold import_pin in Hq. rewrite lookup_insert_ne by done.
      rewrite IH by done. split.
      * intros (y & Hy & ?). exists y. rewrite elem_of_app. auto.
      * intros (y & [Hy| ->%list_elem_of_singleton]%elem_of_app & Hyq & ->);
          [by exists y|done].
Qed.

(** X7. Import and read back: after importing records with distinct
    pins into a new database, [get_next_unposted] with a limit of 64
    bits that cuts nothing off returns exactly the imported records, in
    ascending order of pin, each with the address it was imported with
    and with its coordinates as a REAL column gives them back: a NaN as
    [None], minus zero as [0.0], every other value unchanged. *)
Theorem import_then_get_all (rows : list import_row) (n : Z) :
  NoDup (import_pin <$> rows) →
  sqlite_int n →
  unlimited n (run_ops new_database (import_op <$> rows)) →
  ∃ l,
    get_next_unposted_call (run_ops new_database (import_op <$> rows)) n
    = Return l
    ∧ l ≡ₚ import_property <$> rows
    ∧ StronglySorted pin_lt (p_pin <$> l).
Proof.
  intros Hnd Hint Hn. eexists. split.
  { unfold get_next_unposted_call, bind_int. by rewrite decide_True. }
  split; [|apply get_next_unposted_sorted].
  apply NoDup_Permutation.
  - apply queue_NoDup.
  - apply (NoDup_fmap_1 p_pin). rewrite <- list_fmap_compose.
    exact Hnd.
  - intros p. rewrite elem_of_queue by done. rewrite list_elem_of_fmap.
    split.
    + intros (r & Hr & _ & ->).
      apply import_lookup in Hr as (x & Hx & Hq & ->); [|done].
      exists x. split; [|done]. simpl in Hq. destruct x as [[[q a] la] lo].
      unfold import_pin in Hq. simpl in *. by subst.
    + intros (x & -> & Hx).
      exists (mk_pin_row x.1.1.2 (read_back x.1.2) (read_back x.2)
                0 None 0 None).
      split_and!; [| |reflexivity].
      * apply import_lookup; [done|]. by exists x.
      * split; simpl; lia.
Qed.

Lemma import_then_get_all_witness :
  ∃ l,
    get_next_unposted_call
      (run_ops new_database
         (import_op <$> [("B", "2 W Oak St", Some S754_nan,
                          Some (S754_zero true));
                         ("A", "1 W Oak St", Some (S754_finite false 41 0),
                          Some (S754_finite true 87 0))])) 5
    = Return l
    ∧ l ≡ₚ [mk_property "B" "2 W Oak St" None (Some (S754_zero false));
            mk_property "A" "1 W Oak St" (Some (S754_finite false 41 0))
              (Some (S754_finite true 87 0))]
    ∧ StronglySorted pin_lt (p_pin <$> l).
Proof.
  apply (import_then_get_all
           [("B", "2 W Oak St", Some S754_nan, Some (S754_zero true));
            ("A", "1 W Oak St", Some (S754_finite false 41 0),
             Some (S754_finite true 87 0))] 5).
  - apply (bool_decide_unpack _). by vm_compute.
  - unfold sqlite_int. lia.
  - right. by vm_compute.
Defined.

End StoreFacts.

(** ** StreetViewClient, further properties *)

Module LocationFacts.
Import StreetViewClient StreetViewClientFacts.

Lemma sleeps_app a b : sleeps (a ++ b) = sleeps a ++ sleeps b.
Proof. apply omap_app. Qed.

Lemma geocode_calls_app a b :
  geocode_calls (a ++ b) = geocode_calls a ++ geocode_calls b.
Proof. apply omap_app. Qed.

Lemma total_sleep_app a b : total_sleep (a ++ b) = total_sleep a + total_sleep b.
Proof.
  unfold total_sleep. rewrite sleeps_app.
  induction (sleeps a) as [|x l IH]; simpl; [done|]. rewrite IH. lia.
Qed.


Lemma backoff_sum_nonneg (attempts : list Z) :
  Forall (λ a, 0 ≤ a) attempts →
  0 ≤ foldr Z.add 0 ((λ a, 2 ^ a) <$> attempts).
Proof.
  induction 1 as [|x l Hx _ IHl]; [done|].
  rewrite fmap_cons. cbn [foldr].
  assert (0 ≤ 2 ^ x) by (apply Z.pow_nonneg; lia). lia.
Qed.

Lemma geocode_calls_cons e tr :
  geocode_calls (e :: tr)
  = match e with
    | EvGeocode a => a :: geocode_calls tr
    | _ => geocode_calls tr
    end.
Proof. by destruct e. Qed.

Lemma total_sleep_cons e tr :
  total_sleep (e :: tr)
  = match e with
    | EvSleep s => s + total_sleep tr
    | _ => total_sleep tr
    end.
Proof. by destruct e. Qed.

Ltac trace_norm :=
  cbn [app]; rewrite ?geocode_calls_cons, ?total_sleep_cons;
  try change (geocode_calls []) with (@nil string);
  try change (total_sleep []) with 0.

Lemma get_location_loop_bounds env address retries attempts w :
  Forall (λ a, 0 ≤ a) attempts →
  ∃ o tr, get_location_loop env address retries attempts w
          = (Return o, add_events tr w)
          ∧ (length (geocode_calls tr) ≤ length attempts)%nat
          ∧ 0 ≤ total_sleep tr
              ≤ foldr Z.add 0 ((λ a, 2 ^ a) <$> attempts)
          ∧ Forall (λ e, match e with
                         | EvGeocode a => a = address
                         | EvSleep _ | EvLog _ _ => True
                         | _ => False
                         end) tr.
Proof.
  intros Hpos. revert w.
  induction Hpos as [|attempt rest Ha Hrest IH]; intros w.
  - eexists _, _. split; [apply get_location_failed_eq|].
    split_and!; [done|done|done|]. repeat constructor.
  - assert (Hpow : 1 ≤ 2 ^ attempt)
      by (pose proof (Z.pow_pos_nonneg 2 attempt); lia).
    pose proof (backoff_sum_nonneg rest Hrest) as Hsum.
    rewrite fmap_cons. cbn [get_location_loop foldr length].
    unfold mbind, M_bind, geolocator_geocode at 1.
    destruct (geocode env (trace w) address) as [loc| | |e|e];
      rewrite ?time_sleep_pow, ?(time_sleep_nonneg 1) by lia;
      unfold logger, emit, add_event.
    + rewrite add_events_add_events. eexists _, _. split; [done|].
      trace_norm.
      split_and!; [cbn [length]; lia|done|lia|repeat constructor].
    + destruct (IH (add_events [EvGeocode address; EvSleep 1] w))
        as (o & tr & Heq & Hg & Hs & Hall).
      rewrite add_events_add_events.
      change (get_location_loop env address retries rest
                (add_events ([EvGeocode address] ++ [EvSleep 1]) w))
        with (get_location_loop env address retries rest
                (add_events [EvGeocode address; EvSleep 1] w)).
      rewrite Heq, add_events_add_events. eexists _, _. split; [done|].
      trace_norm.
      split_and!; [cbn [length]; lia|lia|lia|by repeat constructor].
    + rewrite !add_events_add_events.
      match goal with
      | |- context [get_location_loop _ _ _ _ ?w'] =>
          destruct (IH w') as (o & tr & Heq & Hg & Hs & Hall)
      end.
      rewrite Heq, add_events_add_events. eexists _, _. split; [done|].
      trace_norm.
      split_and!; [cbn [length]; lia|lia|lia|by repeat constructor].
    + rewrite get_location_failed_eq, !add_events_add_events.
      eexists _, _. split; [done|]. trace_norm.
      split_and!; [cbn [length]; lia|done|lia|repeat constructor].
    + rewrite get_location_failed_eq, !add_events_add_events.
      eexists _, _. split; [done|]. trace_norm.
      split_and!; [cbn [length]; lia|done|lia|repeat constructor].
Qed.


(** X12. When at least one attempt is allowed, the first answer of the
    geocoder can end the call at once: a match is returned without any
    pause; an unavailable service, or any other exception, makes the call
    return [None] after that single attempt, without pause, and the
    failure is still logged with the configured number of attempts. *)
Theorem get_location_first_answer (env : Env) (address : string)
    (retries : Z) (w : World) :
  1 ≤ retries →
  (∀ location, geocode env (trace w) address = GeoLocation location →
     get_location env address retries w
     = (Return (Some location),
        add_events [EvGeocode address;
                    EvLog DEBUG ("Successfully geocoded address: "
                                 +:+ address)] w))
  ∧ (∀ e, geocode env (trace w) address = GeoUnavailable e →
       get_location env address retries w
       = (Return None,
          add_events [EvGeocode address;
                      EvLog ERROR ("Geocoding service unavailable: " +:+ e);
                      EvLog ERROR ("Failed to geocode address after "
                                   +:+ str_of_Z retries +:+ " attempts: "
                                   +:+ address)] w))
  ∧ (∀ e, geocode env (trace w) address = GeoException e →
       get_location env address retries w
       = (Return None,
          add_events [EvGeocode address;
                      EvLog ERROR ("Unexpected error during geocoding: "
                                   +:+ e);
                      EvLog ERROR ("Failed to geocode address after "
                                   +:+ str_of_Z retries +:+ " attempts: "
                                   +:+ address)] w)).
Proof.
  intros Hr. unfold get_location, py_range.
  rewrite seqZ_cons by lia. cbn [get_location_loop].
  unfold mbind, M_bind, geolocator_geocode.
  split_and!; intros x ->; unfold logger, emit, add_event;
    rewrite ?get_location_failed_eq, !add_events_add_events; reflexivity.
Qed.

Lemma get_location_first_answer_witness :
  get_location Scenario.env_geocoder_down "1 W Oak St" 3
    (Scenario.world_of PINDatabase.new_database)
  = (Return None,
     add_events [EvGeocode "1 W Oak St";
                 EvLog ERROR "Geocoding service unavailable: service down";
                 EvLog ERROR
                   "Failed to geocode address after 3 attempts: 1 W Oak St"]
       (Scenario.world_of PINDatabase.new_database)).
Proof.
  destruct (get_location_first_answer Scenario.env_geocoder_down
              "1 W Oak St" 3 (Scenario.world_of PINDatabase.new_database))
    as (_ & H & _); [lia|].
  rewrite (H "service down") by reflexivity. reflexivity.
Defined.

Lemma get_location_loop_no_match env address retries attempts w :
  (∀ h a, geocode env h a = GeoNone) →
  ∃ tr, get_location_loop env address retries attempts w
        = (Return None, add_events tr w)
        ∧ geocode_calls tr = replicate (length attempts) address
        ∧ sleeps tr = replicate (length attempts) 1.
Proof.
  intros H. revert w. induction attempts as [|attempt rest IH]; intros w.
  - eexists. split; [apply get_location_failed_eq|]. done.
  - cbn [get_location_loop].
    unfold mbind, M_bind, geolocator_geocode at 1. rewrite H.
    rewrite (time_sleep_nonneg 1) by lia.
    unfold emit, add_event. rewrite add_events_add_events.
    match goal with
    | |- context [get_location_loop _ _ _ _ ?w'] =>
        destruct (IH w') as (tr & -> & Hg & Hs)
    end.
    rewrite add_events_add_events. eexists. split; [done|].
    rewrite geocode_calls_app, sleeps_app, Hg, Hs. done.
Qed.

(** X13. Against a geocoder that finds no match on any call,
    [get_location] makes every attempt it is allowed, pauses one second
    after each of them (no backoff), and returns [None]. *)
Theorem get_location_no_match (env : Env) (address : string) (retries : Z)
    (w : World) :
  (∀ h a, geocode env h a = GeoNone) →
  ∃ tr, get_location env address retries w = (Return None, add_events tr w)
        ∧ geocode_calls tr = replicate (Z.to_nat retries) address
        ∧ sleeps tr = replicate (Z.to_nat retries) 1.
Proof.
  intros H. unfold get_location, py_range.
  destruct (get_location_loop_no_match env address retries
              (seqZ 0 retries) w H) as (tr & Heq & Hg & Hs).
  rewrite length_seqZ in Hg, Hs. eauto.
Qed.

Lemma get_location_no_match_witness :
  ∃ tr, get_location Scenario.env_upload_refused "1 W Oak St" 3
          (Scenario.world_of PINDatabase.new_database)
        = (Return None,
           add_events tr (Scenario.world_of PINDatabase.new_database))
        ∧ sleeps tr = [1; 1; 1].
Proof.
  destruct (get_location_no_match Scenario.env_upload_refused "1 W Oak St"
              3 (Scenario.world_of PINDatabase.new_database))
    as (tr & Heq & _ & Hs); [reflexivity|].
  exists tr. split; [exact Heq|exact Hs].
Defined.

(** *** [process_location] as a whole *)

Lemma location_events_quiet address tr :
  Forall (location_event address) tr →
  imagery_requests tr = [] ∧ post_requests tr = [] ∧ written_paths tr = [].
Proof.
  induction 1 as [|e tr He _ (IH1 & IH2 & IH3)]; [done|].
  destruct e; done.
Qed.

Lemma get_location_3 env address w :
  ∃ o tr, get_location env address 3 w = (Return o, add_events tr w)
          ∧ (length (geocode_calls tr) ≤ 3)%nat
          ∧ 0 ≤ total_sleep tr ≤ 7
          ∧ Forall (location_event address) tr.
Proof.
  unfold get_location.
  destruct (get_location_loop_bounds env address 3 (py_range 3) w)
    as (o & tr & Heq & Hg & Hs & Hall).
  { apply Forall_forall. intros a Ha%elem_of_seqZ. lia. }
  exists o, tr. split_and!; try done; by destruct Hs.
Qed.

Lemma after_location_trace address tr1 url params tail :
  Forall (location_event address) tr1 →
  geocode_calls tail = [] → total_sleep tail = 0 →
  imagery_requests tail = [] → post_requests tail = [] →
  geocode_calls (tr1 ++ EvGet url params :: tail) = geocode_calls tr1
  ∧ imagery_requests (tr1 ++ EvGet url params :: tail) = [params]
  ∧ written_paths (tr1 ++ EvGet url params :: tail) = written_paths tail
  ∧ post_requests (tr1 ++ EvGet url params :: tail) = []
  ∧ total_sleep (tr1 ++ EvGet url params :: tail) = total_sleep tr1.
Proof.
  intros Hall Hg Hs Hi Hp.
  destruct (location_events_quiet _ _ Hall) as (Hi1 & Hp1 & Hw1).
  rewrite geocode_calls_app, total_sleep_app, geocode_calls_cons,
    total_sleep_cons, Hg, Hs, app_nil_r, Z.add_0_r.
  unfold imagery_requests, post_requests, written_paths in *.
  rewrite !omap_app, Hi1, Hp1, Hw1. cbn [app omap list_omap].
  by rewrite Hi, Hp.
Qed.

(** *** NUL bytes in the image path *)

Lemma has_nul_app (a b : string) :
  has_nul (a +:+ b) = has_nul a || has_nul b.
Proof.
  induction a as [|c a IH]; [done|].
  change (has_nul (String c (a +:+ b))
          = has_nul (String c a) || has_nul b).
  cbn [has_nul]. by rewrite IH, orb_assoc.
Qed.

Lemma has_nul_string_of_uint (d : Decimal.uint) :
  has_nul (NilZero.string_of_uint d) = false.
Proof.
  assert (H : ∀ d', has_nul (NilEmpty.string_of_uint d') = false)
    by (induction d'; cbn; done).
  destruct d; cbn; try done; apply H.
Qed.

Lemma has_nul_str_of_Z (z : Z) : has_nul (str_of_Z z) = false.
Proof.
  unfold str_of_Z, NilZero.string_of_int.
  destruct (Z.to_int z); cbn [has_nul]; apply has_nul_string_of_uint.
Qed.

Lemma has_nul_zero_pad (width : nat) (z : Z) :
  has_nul (zero_pad width z) = false.
Proof.
  unfold zero_pad. rewrite has_nul_app, has_nul_str_of_Z.
  by induction (width - _)%nat.
Qed.

Lemma has_nul_filename (pin : string) (dt : datetime) :
  has_nul (pin +:+ "_" +:+ strftime_Ymd_HMS dt +:+ ".jpg") = has_nul pin.
Proof.
  unfold strftime_Ymd_HMS.
  rewrite !has_nul_app, !has_nul_zero_pad. cbn [has_nul].
  by rewrite !orb_false_r.
Qed.

(** The path has a NUL byte only if the save directory or the pin has
    one, and it has one whenever the pin has. *)
Lemma has_nul_image_path (self : StreetViewClient) (pin : string)
    (dt : datetime) :
  (has_nul (image_path_of self pin dt) = true →
   has_nul (save_dir self) || has_nul pin = true)
  ∧ (has_nul pin = true → has_nul (image_path_of self pin dt) = true).
Proof.
  unfold image_path_of, os_path_join. cbn zeta.
  destruct (str_startswith _ _); [|destruct (_ || _)];
    rewrite ?(has_nul_app (save_dir self)), ?(has_nul_app "/"),
      has_nul_filename; cbn [has_nul];
    destruct (has_nul (save_dir self)), (has_nul pin); done.
Qed.

(** One [process_location] call, in full. *)
Lemma process_location_master env self pin address w :
  ∃ r w' tr,
    process_location env self pin address w = (r, w')
    ∧ trace w' = trace w ++ tr
    ∧ db w' = db w ∧ bluesky w' = bluesky w
    ∧ (length (geocode_calls tr) ≤ 3)%nat
    ∧ (length (imagery_requests tr) ≤ 1)%nat
    ∧ (length (written_paths tr) ≤ 1)%nat
    ∧ post_requests tr = []
    ∧ 0 ≤ total_sleep tr ≤ 7
    ∧ match r with
      | Return res =>
          r_pin res = pin ∧ r_address res = address
          ∧ ((r_status res = "success" ∧ r_error res = None
              ∧ is_Some (r_latitude res) ∧ is_Some (r_longitude res)
              ∧ ∃ path data, r_image_path res = Some path
                             ∧ data ≠ EmptyString
                             ∧ has_nul path = false
                             ∧ written_paths tr = [path]
                             ∧ files w' = <[path := data]> (files w))
             ∨ (r_status res = "error" ∧ r_image_path res = None
                ∧ r_latitude res = None ∧ r_longitude res = None
                ∧ (((r_error res = Some "Geocoding failed"
                     ∨ r_error res = Some "No Street View image available")
                    ∧ files w' = files w)
                   ∨ ∃ e dt,
                       r_error res = Some ("Failed to save image: " +:+ e)
                       ∧ written_paths tr = [image_path_of self pin dt]
                       ∧ ∀ q, q ≠ image_path_of self pin dt →
                              files w' !! q = files w !! q)))
      | Raise e =>
          e = ValueError "embedded null byte"
          ∧ files w' = files w
          ∧ has_nul (save_dir self) || has_nul pin = true
      end.
Proof.
  unfold process_location.
  unfold mbind at 1, M_bind at 1.
  destruct (get_location_3 env address w)
    as (o & tr1 & -> & Hg & Hs & Hall).
  destruct (location_events_quiet _ _ Hall) as (Hi1 & Hp1 & Hw1).
  destruct o as [loc|].
  2: { eexists _, _, tr1. split; [reflexivity|].
       rewrite Hi1, Hw1. split_and!; try done; [simpl; lia..|].
       right. split_and!; try done. left. split; [by left|done]. }
  unfold mbind at 1, M_bind at 1.
  unfold get_street_view_image, mbind at 1, M_bind at 1, requests_get.
  set (params := mk_street_view_params _ _ _ _ _).
  set (w1 := add_event (EvGet base_url params) (add_events tr1 w)).
  assert (Htr : ∀ tail,
            geocode_calls tail = [] → total_sleep tail = 0 →
            imagery_requests tail = [] → post_requests tail = [] →
            geocode_calls (tr1 ++ EvGet base_url params :: tail)
            = geocode_calls tr1
            ∧ imagery_requests (tr1 ++ EvGet base_url params :: tail)
              = [params]
            ∧ written_paths (tr1 ++ EvGet base_url params :: tail)
              = written_paths tail
            ∧ post_requests (tr1 ++ EvGet base_url params :: tail) = []
            ∧ total_sleep (tr1 ++ EvGet base_url params :: tail)
              = total_sleep tr1)
    by (intros tail; by apply (after_location_trace address)).
  assert (Hno_image :
            ∃ r w' tr,
              (Return (mk_process_result pin address "error" None
                         (Some "No Street View image available") None None),
               w1) = (r, w')
              ∧ trace w' = trace w ++ tr
              ∧ db w' = db w ∧ bluesky w' = bluesky w
              ∧ (length (geocode_calls tr) ≤ 3)%nat
              ∧ (length (imagery_requests tr) ≤ 1)%nat
              ∧ (length (written_paths tr) ≤ 1)%nat
              ∧ post_requests tr = []
              ∧ 0 ≤ total_sleep tr ≤ 7
              ∧ match r with
                | Return res =>
                    r_pin res = pin ∧ r_address res = address
                    ∧ ((r_status res = "success" ∧ r_error res = None
                        ∧ is_Some (r_latitude res)
                        ∧ is_Some (r_longitude res)
                        ∧ ∃ path data,
                            r_image_path res = Some path
                            ∧ data ≠ EmptyString
                            ∧ has_nul path = false
                            ∧ written_paths tr = [path]
                            ∧ files w' = <[path := data]> (files w))
                       ∨ (r_status res = "error" ∧ r_image_path res = None
                          ∧ r_latitude res = None ∧ r_longitude res = None
                          ∧ (((r_error res = Some "Geocoding failed"
                               ∨ r_error res
                                 = Some "No Street View image available")
                              ∧ files w' = files w)
                             ∨ ∃ e dt,
                                 r_error res
                                 = Some ("Failed to save image: " +:+ e)
                                 ∧ written_paths tr
                                   = [image_path_of self pin dt]
                                 ∧ ∀ q, q ≠ image_path_of self pin dt →
                                        files w' !! q = files w !! q)))
                | Raise e =>
                    e = ValueError "embedded null byte"
                    ∧ files w' = files w
                    ∧ has_nul (save_dir self) || has_nul pin = true
                end).
  { eexists _, _, (tr1 ++ [EvGet base_url params]).
    split; [reflexivity|].
    destruct (Htr []) as (-> & -> & -> & -> & ->); try done.
    split_and!; try done; try lia; try (cbn; lia).
    - simpl. by rewrite app_assoc.
    - right. split_and!; try done. left. split; [by right|done]. }
  fold w1.
  destruct (http_get env (trace (add_events tr1 w)) base_url params)
    as [resp|e]; [|exact Hno_image].
  case_decide; [|exact Hno_image].
  destruct (str_contains "image" (default EmptyString (content_type resp)));
    [|exact Hno_image].
  unfold mret, M_ret.
  destruct (content resp) as [|c data] eqn:Hcontent; [exact Hno_image|].
  cbn [truthy default].
  unfold mbind, M_bind, datetime_now, write_file, add_event.
  set (dt := now env (trace w1)).
  set (path := image_path_of self pin dt).
  cbn [fst snd].
  destruct (has_nul path) eqn:Hnul.
  { eexists _, _, (tr1 ++ [EvGet base_url params; EvNow dt]).
    split; [reflexivity|].
    destruct (Htr [EvNow dt]) as (-> & -> & -> & -> & ->); try done.
    split_and!; try done; try lia; try (cbn; lia).
    - simpl. by rewrite <- !app_assoc.
    - by apply (has_nul_image_path self pin dt). }
  destruct (write_error env (trace (add_events [EvNow dt] w1)) path)
    as [e|] eqn:Hwrite.
  - destruct (write_partial env (trace (add_events [EvNow dt] w1)) path)
      as [k|] eqn:Hpartial.
    + eexists _, _,
        (tr1 ++ [EvGet base_url params; EvNow dt; EvWrite path]).
      split; [reflexivity|].
      destruct (Htr [EvNow dt; EvWrite path]) as (-> & -> & -> & -> & ->);
        try done.
      split_and!; try done; try lia; try (cbn; lia).
      * simpl. by rewrite <- !app_assoc.
      * right. split_and!; try done. right. exists e, dt.
        split_and!; try done. intros q Hq. cbn.
        by rewrite lookup_insert_ne.
    + eexists _, _,
        (tr1 ++ [EvGet base_url params; EvNow dt; EvWrite path]).
      split; [reflexivity|].
      destruct (Htr [EvNow dt; EvWrite path]) as (-> & -> & -> & -> & ->);
        try done.
      split_and!; try done; try lia; try (cbn; lia).
      * simpl. by rewrite <- !app_assoc.
      * right. split_and!; try done. right. exists e, dt.
        split_and!; done.
  - eexists _, _, (tr1 ++ [EvGet base_url params; EvNow dt; EvWrite path]).
    split; [reflexivity|].
    destruct (Htr [EvNow dt; EvWrite path]) as (-> & -> & -> & -> & ->);
      try done.
    split_and!; try done; try lia; try (cbn; lia).
    + simpl. by rewrite <- !app_assoc.
    + left. split_and!; try done; [by eexists..|].
      exists path, (String c data). split_and!; done.
Qed.



(** X15. One [process_location] costs at most three geocoding calls, one
    imagery request (the imagery request is never repeated), one file
    written, seven seconds of pauses, and no request to the social
    platform. *)
Theorem process_location_cost (env : Env) (self : StreetViewClient)
    (pin address : string) (w : World) :
  ∃ tr, trace (process_location env self pin address w).2 = trace w ++ tr
        ∧ (length (geocode_calls tr) ≤ 3)%nat
        ∧ (length (imagery_requests tr) ≤ 1)%nat
        ∧ (length (written_paths tr) ≤ 1)%nat
        ∧ post_requests tr = []
        ∧ 0 ≤ total_sleep tr ≤ 7.
Proof.
  destruct (process_location_master env self pin address w)
    as (r & w' & tr & Heq & Htr & _ & _ & Hg & Hi & Hw & Hp & Hs & _).
  exists tr. rewrite Heq. destruct Hs. split_and!; done.
Qed.

(** *** Paths *)

Lemma append_eq_inv_r (s1 s2 t1 t2 : string) :
  String.length t1 = String.length t2 →
  s1 +:+ t1 = s2 +:+ t2 → s1 = s2 ∧ t1 = t2.
Proof.
  intros Hlen Heq. apply append_eq_inv; [|done].
  apply (f_equal String.length) in Heq. rewrite !length_append in Heq. lia.
Qed.

Lemma prefix_append (a b : string) : String.prefix a (a +:+ b) = true.
Proof.
  induction a as [|c a IH]; [by destruct b|].
  change (String.prefix (String c a) (String c (a +:+ b)) = true).
  cbn [String.prefix]. by destruct (ascii_dec c c).
Qed.

Lemma filename_startswith pin x :
  str_startswith (pin +:+ "_" +:+ x) "/" = str_startswith pin "/".
Proof.
  unfold str_startswith. destruct pin as [|a pin]; [done|].
  change (String.prefix "/" (String a (pin +:+ "_" +:+ x))
          = String.prefix "/" (String a pin)).
  cbn [String.prefix].
  assert (Hnil : ∀ s, String.prefix EmptyString s = true) by (by intros []).
  destruct (ascii_dec _ a); [by rewrite !Hnil|done].
Qed.

(** The directory part that [os.path.join] puts before a name that does
    not begin with a separator. *)
Lemma os_path_join_relative a b :
  str_startswith b "/" = false →
  ∃ dir, os_path_join a b = dir +:+ b
         ∧ String.prefix a dir = true
         ∧ ∀ b', str_startswith b' "/" = false →
                 os_path_join a b' = dir +:+ b'.
Proof.
  intros Hb. unfold os_path_join. rewrite Hb.
  destruct (bool_decide (a = EmptyString) || str_endswith_sep a) eqn:Hsep.
  - exists a. split_and!; [done| |by intros b' ->].
    clear. induction a as [|c a IH]; [done|].
    cbn [String.prefix]. by destruct (ascii_dec c c).
  - exists (a +:+ "/"). split_and!.
    + clear. induction a as [|c a IH]; [done|].
      change (String c a +:+ "/" +:+ b = String c ((a +:+ "/") +:+ b)).
      change (String c (a +:+ "/" +:+ b) = String c ((a +:+ "/") +:+ b)).
      by rewrite IH.
    + apply prefix_append.
    + intros b' ->. clear. induction a as [|c a IH]; [done|].
      change (String c (a +:+ "/" +:+ b') = String c ((a +:+ "/") +:+ b')).
      by rewrite IH.
Qed.

(** X16. For pins that do not begin with ["/"], the text of the image
    path identifies the pin and the second: two paths of one client are
    the same string exactly when the pins are equal and the clock
    readings fall in the same second. (Two different strings can still
    name one file, as for the pins ["A"] and ["./A"]: this is about the
    strings, not about the files they name.) *)
Theorem image_path_identifies_record (self : StreetViewClient)
    (pin1 pin2 : string) (dt1 dt2 : datetime) :
  valid_datetime dt1 → valid_datetime dt2 →
  str_startswith pin1 "/" = false → str_startswith pin2 "/" = false →
  image_path_of self pin1 dt1 = image_path_of self pin2 dt2
  ↔ pin1 = pin2 ∧ to_the_second dt1 = to_the_second dt2.
Proof.
  intros Hv1 Hv2 Hp1 Hp2. split.
  - unfold image_path_of. intros Heq.
    destruct (os_path_join_relative (save_dir self)
                (pin1 +:+ "_" +:+ strftime_Ymd_HMS dt1 +:+ ".jpg"))
      as (dir & Hj1 & _ & Hj2); [by rewrite filename_startswith|].
    rewrite Hj1, (Hj2 (pin2 +:+ "_" +:+ strftime_Ymd_HMS dt2 +:+ ".jpg"))
      in Heq by (by rewrite filename_startswith).
    apply (inj (String.app dir)) in Heq.
    apply append_eq_inv_r in Heq as [-> Heq].
    2: { change (S (String.length (strftime_Ymd_HMS dt1 +:+ ".jpg"))
                 = S (String.length (strftime_Ymd_HMS dt2 +:+ ".jpg"))).
         by rewrite !length_append, !strftime_length. }
    split; [done|]. apply strftime_inj; [done..|].
    apply (inj (String.app "_")) in Heq.
    apply append_eq_inv in Heq as [-> _]; [done|].
    by rewrite !strftime_length.
  - intros [-> Hsec]. by apply image_path_of_eq_iff.
Qed.

Lemma image_path_identifies_record_witness :
  image_path_of Scenario.street_view "A" Scenario.morning
  = image_path_of Scenario.street_view "B" Scenario.morning
  ↔ "A" = "B" ∧ to_the_second Scenario.morning
                = to_the_second Scenario.morning.
Proof.
  apply (image_path_identifies_record Scenario.street_view "A" "B"
           Scenario.morning Scenario.morning).
  - unfold valid_datetime. simpl. lia.
  - unfold valid_datetime. simpl. lia.
  - reflexivity.
  - reflexivity.
Defined.

(** X17. Where the image goes: the path begins with the save directory
    whenever the pin does not begin with ["/"]; a pin that does begin
    with ["/"] makes [os.path.join] drop the save directory, and the path
    is then the file name alone. *)
Theorem image_path_directory (self : StreetViewClient) (pin : string)
    (dt : datetime) :
  (str_startswith pin "/" = false →
   String.prefix (save_dir self) (image_path_of self pin dt) = true)
  ∧ (str_startswith pin "/" = true →
     image_path_of self pin dt
     = pin +:+ "_" +:+ strftime_Ymd_HMS dt +:+ ".jpg").
Proof.
  unfold image_path_of. split; intros Hp.
  - destruct (os_path_join_relative (save_dir self)
                (pin +:+ "_" +:+ strftime_Ymd_HMS dt +:+ ".jpg"))
      as (dir & -> & Hdir & _); [by rewrite filename_startswith|].
    clear -Hdir. revert dir Hdir.
    induction (save_dir self) as [|c a IH]; intros dir Hdir.
    + by destruct (dir +:+ _).
    + destruct dir as [|c' dir]; [done|].
      change (String.prefix (String c a)
                (String c' (dir +:+ pin +:+ "_" +:+ strftime_Ymd_HMS dt
                            +:+ ".jpg")) = true).
      cbn [String.prefix] in *. destruct (ascii_dec c c'); [|done].
      by apply IH.
  - unfold os_path_join. by rewrite filename_startswith, Hp.
Qed.

(** *** [process_batch] *)



End LocationFacts.

(** ** BlueskyClient, further properties *)

Module PublishFacts.
Import BlueskyClient BlueskyClientFacts.

Lemma post_requests_app a b :
  post_requests (a ++ b) = post_requests a ++ post_requests b.
Proof. apply omap_app. Qed.

Lemma _authenticate_eq env w :
  _authenticate env w
  = match http_post env (trace w) (session_request (bluesky w)) with
    | HttpResponse resp =>
        if decide (status_code resp = 200) then
          (Return true,
           set_bluesky (logged_in (bluesky w) resp)
             (add_event (EvPost (session_request (bluesky w))) w))
        else (Return false,
              add_event (EvPost (session_request (bluesky w))) w)
    | HttpRequestException _ =>
        (Return false, add_event (EvPost (session_request (bluesky w))) w)
    end.
Proof.
  unfold _authenticate, mbind, M_bind, get_world, session_post.
  fold (session_request (bluesky w)).
  destruct (http_post _ _ _) as [resp|e]; [case_decide|]; reflexivity.
Qed.

Lemma _upload_image_eq env path w :
  _upload_image env path w
  = match files w !! path with
    | None =>
        if has_nul path then (Raise (ValueError "embedded null byte"), w)
        else (Return None, add_events [EvRead path] w)
    | Some data =>
        (Return (blob_of (http_post env (trace w ++ [EvRead path])
                            (upload_request (bluesky w) data))),
         add_events [EvRead path; EvPost (upload_request (bluesky w) data)]
           w)
    end.
Proof.
  unfold _upload_image, mbind, M_bind, read_file, session_post, add_event.
  destruct (files w !! path) as [data|]; [|by destruct (has_nul path)].
  simpl. fold (upload_request (bluesky w) data).
  rewrite add_events_add_events. unfold blob_of.
  destruct (http_post _ _ _) as [resp|e]; [case_decide|]; reflexivity.
Qed.

Lemma post_eq env text image_path w :
  post env text image_path w
  = if truthy (auth_token (bluesky w)) then post_body env text image_path w
    else match _authenticate env w with
         | (Return true, w1) => post_body env text image_path w1
         | (Return false, w1) =>
             (Raise (BlueskyError "Authentication failed"), w1)
         | (Raise e, w1) => (Raise e, w1)
         end.
Proof.
  unfold post, mbind at 1 2, M_bind at 1 2, get_world.
  destruct (truthy (auth_token (bluesky w))); [reflexivity|].
  destruct (_authenticate env w) as [[[|]|e] w1]; reflexivity.
Qed.

(** What [post_body] does, request by request. *)
Lemma post_body_eq env text image_path w :
  let dt := utcnow env (trace w) in
  if refused_path w image_path then
    post_body env text image_path w
    = (Raise (ValueError "embedded null byte"), add_events [EvUtcNow dt] w)
  else
    ∃ pre embed,
      post_body env text image_path w
      = (Return (uri_of (http_post env (trace w ++ pre)
                           (record_request (bluesky w) text dt embed))),
         add_events
           (pre ++ [EvPost (record_request (bluesky w) text dt embed)]) w)
      ∧ (truthy image_path = false → pre = [EvUtcNow dt] ∧ embed = None)
      ∧ (truthy image_path = true →
         let path := default EmptyString image_path in
         match files w !! path with
         | None => pre = [EvUtcNow dt; EvRead path] ∧ embed = None
         | Some data =>
             pre = [EvUtcNow dt; EvRead path;
                    EvPost (upload_request (bluesky w) data)]
             ∧ embed = embed_of
                         (blob_of (http_post env
                                     (trace w ++ [EvUtcNow dt; EvRead path])
                                     (upload_request (bluesky w) data)))
         end).
Proof.
  intros dt. unfold refused_path.
  destruct (truthy image_path) eqn:Hip; cbn [andb].
  - destruct (files w !! default EmptyString image_path) as [data|] eqn:Hf.
    + rewrite bool_decide_eq_false_2, andb_false_r by done.
      unfold post_body, mbind at 1, M_bind at 1, datetime_utcnow.
      fold dt. cbn zeta. rewrite Hip.
      unfold mbind at 1 2, M_bind at 1 2. rewrite _upload_image_eq.
      cbn [files bluesky trace add_event add_events]. rewrite Hf.
      unfold mret, M_ret; cbn beta iota; rewrite create_record_eq;
        unfold add_event; rewrite !add_events_add_events;
        cbn [bluesky trace add_events]; cbn zeta.
      eexists _, _. split_and!; [|done|intros _; split; reflexivity].
      unfold uri_of, record_request. rewrite <- !app_assoc. reflexivity.
    + rewrite bool_decide_eq_true_2, andb_true_r by done.
      destruct (has_nul (default EmptyString image_path)) eqn:Hnul.
      * unfold post_body, mbind at 1, M_bind at 1, datetime_utcnow.
        fold dt. cbn zeta. rewrite Hip.
        unfold mbind at 1 2, M_bind at 1 2. rewrite _upload_image_eq.
        cbn [files bluesky trace add_event add_events].
        by rewrite Hf, Hnul.
      * unfold post_body, mbind at 1, M_bind at 1, datetime_utcnow.
        fold dt. cbn zeta. rewrite Hip.
        unfold mbind at 1 2, M_bind at 1 2. rewrite _upload_image_eq.
        cbn [files bluesky trace add_event add_events]. rewrite Hf, Hnul.
        unfold mret, M_ret; cbn beta iota; rewrite create_record_eq;
          unfold add_event; rewrite !add_events_add_events;
          cbn [bluesky trace add_events]; cbn zeta.
        eexists _, _. split_and!; [|done|intros _; split; reflexivity].
        unfold uri_of, record_request. rewrite <- !app_assoc. reflexivity.
  - unfold post_body, mbind at 1, M_bind at 1, datetime_utcnow.
    fold dt. cbn zeta. rewrite Hip.
    unfold mbind at 1, M_bind at 1, mret, M_ret.
    rewrite create_record_eq.
    unfold add_event. rewrite !add_events_add_events.
    cbn [bluesky trace add_events]. cbn zeta.
    eexists _, _. split_and!; [|intros _; split; reflexivity|done].
    reflexivity.
Qed.


Lemma post_body_uri env text image_path w uri w' :
  post_body env text image_path w = (Return (Some uri), w') →
  ∃ h req resp,
    last (trace w') = Some (EvPost req)
    ∧ is_create_record req
    ∧ http_post env h req = HttpResponse resp
    ∧ status_code resp = 200
    ∧ json_uri resp = Some uri.
Proof.
  pose proof (post_body_eq env text image_path w) as Heq. cbn zeta in Heq.
  destruct (refused_path w image_path); [by rewrite Heq|].
  destruct Heq as (pre & embed & -> & _).
  intros [= Huri <-].
  exists (trace w ++ pre),
    (record_request (bluesky w) text (utcnow env (trace w)) embed).
  unfold uri_of in Huri.
  destruct (http_post _ _ _) as [resp|e] eqn:Hp; [|done].
  case_decide; [|done]. exists resp. split_and!; try done.
  cbn [trace add_events]. by rewrite app_assoc, last_snoc.
Qed.

(** X19. When the client holds no token and [createSession] is not
    answered with status 200, [post] raises [BlueskyError] with the
    message "Authentication failed" after that one request: the clock
    is not read, no file is opened, nothing is uploaded, no record is
    created, and the client is left as it was. *)
Theorem post_authentication_refused env text image_path w :
  truthy (auth_token (bluesky w)) = false →
  refused (http_post env (trace w) (session_request (bluesky w))) →
  post env text image_path w
  = (Raise (BlueskyError "Authentication failed"),
     add_event (EvPost (session_request (bluesky w))) w).
Proof.
  intros Htok Href. rewrite post_eq, Htok, _authenticate_eq.
  unfold refused in Href.
  destruct (http_post _ _ _) as [resp|e]; [|done].
  by case_decide.
Qed.

Lemma post_authentication_refused_witness :
  post Scenario.env_session_refused "1 W Oak St" (Some "images/A.jpg")
    (Scenario.world_of Scenario.store_abc)
  = (Raise (BlueskyError "Authentication failed"),
     add_event (EvPost (session_request Scenario.client_logged_out))
       (Scenario.world_of Scenario.store_abc)).
Proof.
  apply (post_authentication_refused Scenario.env_session_refused
           "1 W Oak St" (Some "images/A.jpg")
           (Scenario.world_of Scenario.store_abc)).
  - reflexivity.
  - vm_compute. discriminate.
Defined.

Ltac post_trace :=
  try (rewrite decide_False by tauto; cbn; lia);
  repeat (apply Forall_cons; split; [cbn; first [done | tauto]|]);
  try apply Forall_nil; try done.

Lemma post_body_requests env text image_path w :
  refused_path w image_path = false →
  ∃ res tr,
    post_body env text image_path w = (Return res, add_events tr w)
    ∧ Forall (λ r, ¬ is_create_session r) (post_requests tr)
    ∧ length (filter is_create_record (post_requests tr)) = 1%nat
    ∧ (length (filter is_upload_blob (post_requests tr)) ≤ 1)%nat
    ∧ Forall (λ r, req_authorization r
                   = session_authorization (bluesky w)) (post_requests tr)
    ∧ geocode_calls tr = [] ∧ imagery_requests tr = []
    ∧ written_paths tr = [] ∧ sleeps tr = []
    ∧ (length (post_requests tr) ≤ 2)%nat
    ∧ Forall (record_repo_is (did (bluesky w))) (post_requests tr).
Proof.
  intros Hpath.
  pose proof (post_body_eq env text image_path w) as Heq. cbn zeta in Heq.
  rewrite Hpath in Heq. destruct Heq as (pre & embed & -> & Hno & Hyes).
  eexists _, _. split; [reflexivity|].
  destruct (truthy image_path).
  - specialize (Hyes eq_refl). cbn zeta in Hyes.
    destruct (files w !! default EmptyString image_path);
      destruct Hyes as [-> _]; cbn;
      split_and!; try done; try lia; post_trace.
  - destruct (Hno eq_refl) as [-> _]. cbn.
    split_and!; try done; try lia; post_trace.
Qed.

(** What [post_body] leaves alone, whether it returns or raises. *)
Lemma post_body_frame env text image_path w :
  ∃ r tr,
    post_body env text image_path w = (r, add_events tr w)
    ∧ geocode_calls tr = [] ∧ imagery_requests tr = []
    ∧ written_paths tr = [] ∧ sleeps tr = []
    ∧ (length (post_requests tr) ≤ 2)%nat.
Proof.
  destruct (refused_path w image_path) eqn:Hpath.
  - pose proof (post_body_eq env text image_path w) as Heq.
    cbn zeta in Heq. rewrite Hpath in Heq. rewrite Heq.
    eexists _, _. split; [reflexivity|]. split_and!; try done. cbn; lia.
  - destruct (post_body_requests env text image_path w Hpath)
      as (res & tr & -> & _ & _ & _ & _ & ? & ? & ? & ? & ? & _).
    by eexists _, _.
Qed.



(** X21. A URI that [post] returns is the [uri] field of a response
    with status 200 that the platform gave to a [createRecord] request,
    and that request is the last thing [post] did. This holds with or
    without a session at the start. *)
Theorem post_uri_comes_from_platform env text image_path w uri w' :
  post env text image_path w = (Return (Some uri), w') →
  ∃ h req resp,
    last (trace w') = Some (EvPost req)
    ∧ is_create_record req
    ∧ http_post env h req = HttpResponse resp
    ∧ status_code resp = 200
    ∧ json_uri resp = Some uri.
Proof.
  rewrite post_eq. destruct (truthy (auth_token (bluesky w))).
  - apply post_body_uri.
  - destruct (_authenticate env w) as [[[|]|e] w1]; [|done|done].
    apply post_body_uri.
Qed.

Lemma post_uri_comes_from_platform_witness :
  ∃ h req resp,
    last (trace (post Scenario.env_all_up "1 W Oak St" None
                   (Scenario.world_of Scenario.store_abc)).2)
    = Some (EvPost req)
    ∧ is_create_record req
    ∧ http_post Scenario.env_all_up h req = HttpResponse resp
    ∧ status_code resp = 200
    ∧ json_uri resp = Some "at://did:plc:lots/post/1".
Proof.
  apply (post_uri_comes_from_platform Scenario.env_all_up "1 W Oak St" None
           (Scenario.world_of Scenario.store_abc)
           "at://did:plc:lots/post/1").
  reflexivity.
Defined.

(** X22. With a session, a readable image file and an upload that the
    platform answers with status 200 and a blob reference, [post] reads
    the clock, reads the file, uploads its bytes and creates a record
    whose embed holds that blob reference under the fixed alternative
    text; what it returns is read from the answer to that record. *)
Theorem post_embeds_uploaded_image env text path data blob w :
  let dt := utcnow env (trace w) in
  let upload := upload_request (bluesky w) data in
  let record :=
    record_request (bluesky w) text dt
      (Some {| embed_alt := "Street View image of property";
               embed_image := blob |}) in
  truthy (auth_token (bluesky w)) = true →
  truthy (Some path) = true →
  files w !! path = Some data →
  blob_of (http_post env (trace w ++ [EvUtcNow dt; EvRead path]) upload)
  = Some blob →
  truthy (Some blob) = true →
  post env text (Some path) w
  = (Return (uri_of (http_post env
                       (trace w ++ [EvUtcNow dt; EvRead path; EvPost upload])
                       record)),
     add_events [EvUtcNow dt; EvRead path; EvPost upload; EvPost record] w).
Proof.
  intros dt upload record Htok Hpath Hfile Hblob Htruthy.
  rewrite post_eq, Htok.
  pose proof (post_body_eq env text (Some path) w) as Heq.
  cbn zeta in Heq. unfold refused_path in Heq.
  change (default EmptyString (Some path)) with path in Heq.
  rewrite (bool_decide_eq_false_2 (files w !! path = None)),
    andb_false_r in Heq by (by rewrite Hfile).
  destruct Heq as (pre & embed & -> & _ & Hyes).
  specialize (Hyes Hpath). cbn zeta in Hyes.
  change (default EmptyString (Some path)) with path in Hyes.
  rewrite Hfile in Hyes. destruct Hyes as [-> ->].
  fold dt upload. rewrite Hblob. unfold embed_of. rewrite Htruthy.
  reflexivity.
Qed.

Lemma post_embeds_uploaded_image_witness :
  post Scenario.env_all_up "1 W Oak St" (Some "images/A.jpg")
    Scenario.world_logged_in
  = (Return (Some "at://did:plc:lots/post/1"),
     add_events
       [EvUtcNow Scenario.morning; EvRead "images/A.jpg";
        EvPost (upload_request Scenario.client_logged_in "JPEG-bytes");
        EvPost (record_request Scenario.client_logged_in "1 W Oak St"
                  Scenario.morning
                  (Some {| embed_alt := "Street View image of property";
                           embed_image := "blob-ref-1" |}))]
       Scenario.world_logged_in).
Proof.
  apply (post_embeds_uploaded_image Scenario.env_all_up "1 W Oak St"
           "images/A.jpg" "JPEG-bytes" "blob-ref-1"
           Scenario.world_logged_in); reflexivity.
Defined.





(** What [post] leaves alone, whether it returns or raises. *)
Lemma post_frame env text image_path w :
  ∃ r w' tr,
    post env text image_path w = (r, w')
    ∧ trace w' = trace w ++ tr
    ∧ db w' = db w ∧ files w' = files w
    ∧ geocode_calls tr = [] ∧ imagery_requests tr = []
    ∧ written_paths tr = [] ∧ sleeps tr = []
    ∧ (length (post_requests tr) ≤ 3)%nat.
Proof.
  rewrite post_eq. destruct (truthy (auth_token (bluesky w))).
  - destruct (post_body_frame env text image_path w)
      as (r & tr & -> & ? & ? & ? & ? & Hlen).
    exists r, (add_events tr w), tr.
    split_and!; try done. lia.
  - rewrite _authenticate_eq.
    destruct (http_post _ _ _) as [resp|e]; [case_decide|].
    + destruct (post_body_frame env text image_path
                  (set_bluesky (logged_in (bluesky w) resp)
                     (add_event (EvPost (session_request (bluesky w))) w)))
        as (r & tr & -> & ? & ? & ? & ? & Hlen).
      eexists _, _, (EvPost (session_request (bluesky w)) :: tr).
      split; [reflexivity|]. split_and!; try done.
      * cbn. by rewrite <- app_assoc.
      * change (length (session_request (bluesky w) :: post_requests tr)
                ≤ 3)%nat.
        cbn [length]. lia.
    + eexists _, _, [EvPost (session_request (bluesky w))].
      split; [reflexivity|]. split_and!; try done. cbn; lia.
    + eexists _, _, [EvPost (session_request (bluesky w))].
      split; [reflexivity|]. split_and!; try done. cbn; lia.
Qed.

Lemma single_line_split a1 a2 r1 r2 :
  single_line a1 → single_line a2 →
  a1 +:+ String "010"%char r1 = a2 +:+ String "010"%char r2 →
  a1 = a2 ∧ r1 = r2.
Proof.
  revert a2. induction a1 as [|c a1 IH]; intros [|c2 a2] H1 H2 Heq;
    cbn in *.
  - by injection Heq as ->.
  - injection Heq as <- _. by destruct H2.
  - injection Heq as -> _. by destruct H1.
  - injection Heq as -> Heq. destruct H1 as [_ H1], H2 as [_ H2].
    destruct (IH a2 H1 H2 Heq) as [-> ->]. done.
Qed.

(** X25. The text of a post identifies the property: for addresses of
    one line, two properties get the same text only if they have the
    same address and the same PIN. *)
Theorem format_post_injective pin1 address1 pin2 address2 :
  single_line address1 → single_line address2 →
  format_post pin1 address1 = format_post pin2 address2 →
  pin1 = pin2 ∧ address1 = address2.
Proof.
  intros H1 H2 Heq. unfold format_post in Heq.
  destruct (single_line_split _ _ _ _ H1 H2 Heq) as [-> Hpin].
  split; [|done]. cbn in Hpin. by simplify_eq.
Qed.

Lemma format_post_injective_witness :
  "A" = "A" ∧ "1 W Oak St" = "1 W Oak St".
Proof.
  apply (format_post_injective "A" "1 W Oak St" "A" "1 W Oak St");
    [cbn; by repeat split.. | reflexivity].
Defined.

End PublishFacts.

(** ** The driving loop, further properties *)

Module LoopFacts.
Import PINDatabase StreetViewClient Main.

Lemma imagery_requests_app a b :
  imagery_requests (a ++ b) = imagery_requests a ++ imagery_requests b.
Proof. apply omap_app. Qed.

Lemma db_record_error_eq pin msg w :
  db_record_error pin msg w
  = (Return true, set_db (record_error (db w) pin msg).2 w).
Proof. reflexivity. Qed.

Lemma db_mark_posted_eq env pin uri image_path w :
  db_mark_posted env pin uri image_path w
  = (Return true,
     set_db (mark_posted (db w) (now env (trace w)) pin uri image_path).2
       (add_event (EvNow (now env (trace w))) w)).
Proof. reflexivity. Qed.

(** The [try] statement of one pass over a property: it always ends
    normally, having made one call on the store. *)
Lemma process_property_try_master env sv prop w :
  ∃ f w' op tr,
    try_except (process_property_try env sv prop)
      (λ e, db_record_error (p_pin prop) (Some (str_of_exn e));;
            mret FallThrough) w
    = (Return f, w')
    ∧ db w' = run_op (db w) op
    ∧ outcome_op (p_pin prop) op
    ∧ trace w' = trace w ++ tr
    ∧ (length (geocode_calls tr) ≤ 3)%nat
    ∧ (length (imagery_requests tr) ≤ 1)%nat
    ∧ (length (post_requests tr) ≤ 3)%nat
    ∧ 0 ≤ total_sleep tr ≤ 7
    ∧ match op with
      | OpMarkPosted _ _ _ image_path =>
          ∃ path data, image_path = Some path
                       ∧ files w' !! path = Some data
                       ∧ data ≠ EmptyString
      | _ => True
      end.
Proof.
  destruct (LocationFacts.process_location_master env sv (p_pin prop)
              (p_address prop) w)
    as (r1 & w1 & tr1 & Hloc & Htr1 & Hdb1 & Hb1 & Hg1 & Hi1 & Hw1 & Hp1
        & Hs1 & Hcase).
  unfold try_except, process_property_try.
  unfold mbind at 1, M_bind at 1. rewrite Hloc.
  destruct r1 as [res|e1].
  2: { eexists _, _, (OpRecordError (p_pin prop) (Some (str_of_exn e1))),
         tr1.
       split; [reflexivity|]. cbn. rewrite Hdb1, Hp1.
       split_and!; try done; cbn; lia. }
  destruct Hcase as (_ & _ & Hcase).
  destruct Hcase
    as [(Hst & Herr & _ & _ & path & data & Hpath & Hdata & _ & _ & Hfiles)
       |(Hst & _ & _ & _ & Hmsg)].
  - destruct (PublishFacts.post_frame env
                (BlueskyClient.format_post (p_pin prop) (p_address prop))
                (r_image_path res) w1)
      as (r & w2 & tr2 & Hpost & Htr2 & Hdb2 & Hf2 & Hg2 & Hi2 & Hw2 & Hs2
          & Hp2).
    assert (Hts2 : total_sleep tr2 = 0) by (unfold total_sleep; by rewrite Hs2).
    rewrite bool_decide_eq_false_2 by (by rewrite Hst).
    unfold mbind at 1, M_bind at 1. rewrite Hpost.
    destruct r as [uri|e]; [destruct (truthy uri) eqn:Huri|].
    + eexists _, _,
        (OpMarkPosted (now env (trace w2)) (p_pin prop)
           (default EmptyString uri) (r_image_path res)),
        (tr1 ++ tr2 ++ [EvNow (now env (trace w2))]).
      split; [reflexivity|]. cbn.
      rewrite Hdb2, Hdb1, Htr2, Htr1, Hpath, Hf2, Hfiles.
      rewrite !LocationFacts.geocode_calls_app, !imagery_requests_app,
        !PublishFacts.post_requests_app, !LocationFacts.total_sleep_app.
      rewrite Hg2, Hi2, Hp1, Hts2.
      rewrite !length_app. cbn.
      split_and!; try done; try lia.
      * by destruct uri as [[|]|].
      * by rewrite <- !app_assoc.
      * exists path, data. by simplify_map_eq.
    + eexists _, _,
        (OpRecordError (p_pin prop) (Some "Failed to create Bluesky post")),
        (tr1 ++ tr2).
      split; [reflexivity|]. cbn.
      rewrite Hdb2, Hdb1, Htr2, Htr1.
      rewrite !LocationFacts.geocode_calls_app, !imagery_requests_app,
        !PublishFacts.post_requests_app, !LocationFacts.total_sleep_app.
      rewrite Hg2, Hi2, Hp1, Hts2.
      rewrite !length_app. cbn.
      split_and!; try done; try lia.
      by rewrite <- !app_assoc.
    + eexists _, _,
        (OpRecordError (p_pin prop) (Some (str_of_exn e))),
        (tr1 ++ tr2).
      split; [reflexivity|]. cbn.
      rewrite Hdb2, Hdb1, Htr2, Htr1.
      rewrite !LocationFacts.geocode_calls_app, !imagery_requests_app,
        !PublishFacts.post_requests_app, !LocationFacts.total_sleep_app.
      rewrite Hg2, Hi2, Hp1, Hts2.
      rewrite !length_app. cbn.
      split_and!; try done; try lia.
      by rewrite <- !app_assoc.
  - assert (∃ msg, r_error res = Some msg) as [msg Hmsg'].
    { destruct Hmsg as [[[?|?] _]|(e & dt & ? & _)]; eauto. }
    rewrite bool_decide_eq_true_2 by done.
    eexists _, _, (OpRecordError (p_pin prop) (r_error res)), tr1.
    split; [reflexivity|]. cbn. rewrite Hdb1, Hmsg', Hp1.
    split_and!; try done; cbn; lia.
Qed.

(** One pass over a property, in full: the [try] statement, and the
    pause that follows it unless [continue] has left the pass. The pause
    is the only thing that can raise, and it does for a negative
    delay. *)
Lemma process_property_master env config sv prop w :
  ∃ r w' op tr,
    process_property env config sv prop w = (r, w')
    ∧ db w' = run_op (db w) op
    ∧ outcome_op (p_pin prop) op
    ∧ trace w' = trace w ++ tr
    ∧ (length (geocode_calls tr) ≤ 3)%nat
    ∧ (length (imagery_requests tr) ≤ 1)%nat
    ∧ (length (post_requests tr) ≤ 3)%nat
    ∧ (0 ≤ post_interval config →
       r = Return () ∧ 0 ≤ total_sleep tr ≤ 7 + post_interval config)
    ∧ match op with
      | OpMarkPosted _ _ _ image_path =>
          ∃ path data, image_path = Some path
                       ∧ files w' !! path = Some data
                       ∧ data ≠ EmptyString
      | _ => True
      end.
Proof.
  destruct (process_property_try_master env sv prop w)
    as (f & w1 & op & tr & Htry & Hdb & Hop & Htr & Hg & Hi & Hp & Hs
        & Hfile).
  unfold process_property, mbind at 1, M_bind at 1. rewrite Htry.
  destruct f.
  - exists (Return ()), w1, op, tr. split_and!; try done.
    intros Hpi. split; [done|lia].
  - unfold time_sleep. case_decide as Hneg.
    + exists (Raise (ValueError "sleep length must be non-negative")), w1,
        op, tr.
      split_and!; try done. intros Hpi. lia.
    + exists (Return ()), (add_event (EvSleep (post_interval config)) w1),
        op, (tr ++ [EvSleep (post_interval config)]).
      cbn [db trace files add_event add_events].
      rewrite Htr, LocationFacts.geocode_calls_app, imagery_requests_app,
        PublishFacts.post_requests_app, LocationFacts.total_sleep_app,
        !length_app.
      cbn. split_and!; try done; try lia.
      * by rewrite <- app_assoc.
      * intros _. split; [done|lia].
Qed.

(** One batch, in full. The batch ends early only when a pause raises,
    which a delay that is not negative never does. *)
Lemma process_properties_master env config sv props w :
  ∃ r w' ops tr,
    process_properties env config sv props w = (r, w')
    ∧ db w' = run_ops (db w) ops
    ∧ Forall (λ op, ∃ p, p ∈ props ∧ outcome_op (p_pin p) op) ops
    ∧ trace w' = trace w ++ tr
    ∧ (length (geocode_calls tr) ≤ 3 * length props)%nat
    ∧ (length (imagery_requests tr) ≤ length props)%nat
    ∧ (length (post_requests tr) ≤ 3 * length props)%nat
    ∧ (0 ≤ post_interval config →
       r = Return ()
       ∧ Forall2 (λ p op, outcome_op (p_pin p) op) props ops
       ∧ 0 ≤ total_sleep tr
           ≤ Z.of_nat (length props) * (7 + post_interval config)).
Proof.
  revert w. induction props as [|prop rest IH]; intros w.
  - exists (Return ()), w, [], [].
    split_and!; try done; try (by rewrite app_nil_r);
      try (intros _; split_and!; try done; cbn; lia).
  - destruct (process_property_master env config sv prop w)
      as (r1 & w1 & op & tr1 & Heq1 & Hdb1 & Hop & Htr1 & Hg1 & Hi1 & Hp1
          & Hs1 & _).
    cbn [process_properties]. unfold mbind at 1, M_bind at 1.
    rewrite Heq1. destruct r1 as [[]|e].
    + destruct (IH w1)
        as (r2 & w2 & ops & tr2 & Heq2 & Hdb2 & Hops & Htr2 & Hg2 & Hi2
            & Hp2 & Hs2).
      exists r2, w2, (op :: ops), (tr1 ++ tr2).
      rewrite Heq2, Hdb2, Hdb1, Htr2, Htr1.
      rewrite LocationFacts.geocode_calls_app, imagery_requests_app,
        PublishFacts.post_requests_app, LocationFacts.total_sleep_app,
        !length_app.
      cbn [length]. split_and!; try done; try lia.
      * constructor.
        -- exists prop. split; [by left|done].
        -- eapply Forall_impl; [exact Hops|].
           intros o (p & Hin & ?). exists p. split; [by right|done].
      * by rewrite <- app_assoc.
      * intros Hpi. destruct (Hs1 Hpi) as [_ ?].
        destruct (Hs2 Hpi) as (-> & ? & ?).
        split_and!; [done|by constructor|lia..].
    + exists (Raise e), w1, [op], tr1.
      split_and!; try done; try (cbn [length]; lia).
      * constructor; [|done]. exists prop. split; [by left|done].
      * intros Hpi. by destruct (Hs1 Hpi) as [? _].
Qed.


Lemma outcome_op_dom c pin op :
  outcome_op pin op → dom (pins (run_op c op)) = dom (pins c).
Proof.
  destruct op as [| |now p uri [path|]|p [msg|]|]; try done; cbn; intros _.
  - apply dom_alter_L.
  - apply dom_alter_L.
Qed.

Lemma outcome_ops_dom c ops :
  Forall (λ op, ∃ pin, outcome_op pin op) ops →
  dom (pins (run_ops c ops)) = dom (pins c).
Proof.
  intros Hops. revert c.
  induction Hops as [|op ops [pin Hop] _ IH]; intros c; [done|].
  cbn. unfold run_ops in IH. rewrite IH. by eapply outcome_op_dom.
Qed.









(** One pass of the loop, in full: the handler of the loop catches
    whatever the body raises, and its own pause does not raise. *)
Lemma main_iteration_master env config sv w :
  ∃ w' ops,
    main_iteration env config sv w = (Return (), w')
    ∧ db w' = run_ops (db w) ops
    ∧ Forall (λ op, ∃ pin, outcome_op pin op
                           ∧ is_Some (pins (db w) !! pin)) ops.
Proof.
  assert (Hsleep : ∀ (r : result ()) w0,
            ∃ w', match r with
                  | Return a => (Return a, w0)
                  | Raise e => time_sleep 60 w0
                  end = (Return (), w')
                  ∧ db w' = db w0).
  { intros [[]|e] w0; eexists; split; reflexivity. }
  unfold main_iteration, try_except.
  unfold mbind at 1, M_bind at 1, db_get_statistics.
  destruct (get_statistics (db w)) as [stats|e].
  2: { by exists (add_event (EvSleep 60) w), []. }
  unfold mbind at 1, M_bind at 1, db_get_next_unposted.
  unfold get_next_unposted_call, bind_int.
  case_decide as Hint; cbn [result_bind].
  2: { by exists (add_event (EvSleep 60) w), []. }
  destruct (get_next_unposted (db w) (batch_size config))
    as [|p props] eqn:Hq.
  { destruct (time_sleep (post_interval config) w) as [r w0] eqn:Hts.
    assert (db w0 = db w) as Hdb0.
    { unfold time_sleep in Hts. case_decide; by injection Hts as <- <-. }
    destruct (Hsleep r w0) as (w' & Heq & Hdb).
    exists w', []. rewrite Heq, Hdb, Hdb0. done. }
  destruct (process_properties_master env config sv (p :: props) w)
    as (r & w1 & ops & tr & -> & Hdb1 & Hops & _).
  destruct (Hsleep r w1) as (w' & Heq & Hdb).
  exists w', ops. rewrite Heq, Hdb, Hdb1. split_and!; [done..|].
  eapply Forall_impl; [exact Hops|].
  intros op (x & Hx & Hop). exists (p_pin x). split; [done|].
  rewrite <- Hq in Hx.
  apply PINDatabaseFacts.get_next_unposted_elem in Hx as (row & Hr & _).
  by eexists.
Qed.

(** X30. The loop never stops on an exception, and it only ever calls
    [mark_posted] and [record_error] on the store, for pins the store
    holds: after any number of passes the store holds the same pins as
    before, none added and none removed. *)
Theorem main_loop_keeps_the_pins (env : Env) (config : Config)
    (sv : StreetViewClient) (n : nat) (w : World) :
  ∃ w' ops,
    main_loop env config sv n w = (Return (), w')
    ∧ db w' = run_ops (db w) ops
    ∧ Forall (λ op, ∃ pin, outcome_op pin op
                           ∧ is_Some (pins (db w) !! pin)) ops
    ∧ dom (pins (db w')) = dom (pins (db w)).
Proof.
  revert w. induction n as [|n IH]; intros w.
  - by exists w, [].
  - destruct (main_iteration_master env config sv w)
      as (w1 & ops1 & Heq1 & Hdb1 & Hops1).
    destruct (IH w1) as (w2 & ops2 & Heq2 & Hdb2 & Hops2 & Hdom2).
    assert (Hdom1 : dom (pins (db w1)) = dom (pins (db w))).
    { rewrite Hdb1. apply outcome_ops_dom.
      eapply Forall_impl; [exact Hops1|]. intros op (pin & ? & _).
      by exists pin. }
    exists w2, (ops1 ++ ops2).
    cbn [main_loop]. unfold mbind at 1, M_bind at 1.
    rewrite Heq1, Heq2, Hdb2, Hdb1. split_and!; [done| | |].
    + unfold run_ops. by rewrite foldl_app.
    + apply Forall_app. split; [done|].
      eapply Forall_impl; [exact Hops2|]. intros op (pin & ? & Hsome).
      exists pin. split; [done|].
      apply elem_of_dom. rewrite <- Hdom1. by apply elem_of_dom.
    + rewrite <- Hdom1, <- Hdom2. by rewrite Hdb2, Hdb1.
Qed.

End LoopFacts.
